(** * ChessLM: the tool surface, the agent bridge and the turn orchestrator

    A shallow embedding of [src/utils/tools.py], [src/utils/helpers.py] and
    the entry points of [src/app.py].

    The chess rules engine (the [chess] package) and the language-model
    stack are external to the repository.  The engine appears here as an
    interface ([Engine]); an agent appears as the finite tree of tool calls
    and stream events it performs ([AgentRun]).  Python's [print] calls only
    write a log line and are left out. *)

From Stdlib Require Import String Ascii List Bool Arith Lia DecimalString DecimalNat.
Import ListNotations.
Open Scope string_scope.

(** ** Python values, exceptions and a few string operations *)

(** The classes of [Exception] the code distinguishes: [except ValueError]
    catches the first only, [except Exception] catches all of them. *)
Inductive ExcClass : Type :=
| ValueError
| IndexError
| KeyError
| OtherException.

(** An exception object; [exc_msg] is what [str(e)] gives. *)
Record Exception : Type := mkExc {
  exc_class : ExcClass;
  exc_msg   : string
}.

Definition is_ValueError (e : Exception) : bool :=
  match exc_class e with
  | ValueError => true
  | _ => false
  end.

Set Warnings "-register-all".

(** The dynamically typed values a message content can be. A [dict] is an
    association list, [get] returning the first binding of the key. *)
Inductive PyVal : Type :=
| PNone
| PStr  (s : string)
| PList (l : list PyVal)
| PDict (d : list (string * PyVal)).

(** Python truthiness. *)
Definition truthy (v : PyVal) : bool :=
  match v with
  | PNone => false
  | PStr s => negb (s =? "")
  | PList l => match l with [] => false | _ :: _ => true end
  | PDict d => match d with [] => false | _ :: _ => true end
  end.

Fixpoint dict_get (d : list (string * PyVal)) (key : string) : option PyVal :=
  match d with
  | [] => None
  | (k, v) :: d' => if k =? key then Some v else dict_get d' key
  end.

(** [str.lower()] on the ASCII range. *)
Definition lower_ascii (c : ascii) : ascii :=
  let n := nat_of_ascii c in
  if ((65 <=? n)%nat && (n <=? 90)%nat)%bool then ascii_of_nat (n + 32) else c.

Fixpoint lower (s : string) : string :=
  match s with
  | EmptyString => EmptyString
  | String c s' => String (lower_ascii c) (lower s')
  end.

(** [needle in hay] on strings. *)
Fixpoint contains (needle hay : string) : bool :=
  if String.prefix needle hay then true
  else match hay with
       | EmptyString => false
       | String _ hay' => contains needle hay'
       end.

(** [sep.join(l)] *)
Definition join (sep : string) (l : list string) : string := String.concat sep l.

(** [str(n)] for a non-negative integer. *)
Definition str_of_nat (n : nat) : string := NilZero.string_of_uint (Nat.to_uint n).

(** ** The rules engine *)

(** [chess.WHITE] is [True] and [chess.BLACK] is [False]. *)
Inductive Color : Type := WHITE | BLACK.

Definition color_eqb (c d : Color) : bool :=
  match c, d with
  | WHITE, WHITE | BLACK, BLACK => true
  | _, _ => false
  end.

(** The part of [chess.Board] and [chess.Move] the repository calls.
    A call that can raise returns a sum, the exception on the left. *)
Class Engine : Type := {
  Board : Type;
  Move  : Type;
  Move_eq_dec : forall x y : Move, {x = y} + {x <> y};
  initial_board : Board;                               (* chess.Board(), board.reset() *)
  turn : Board -> Color;                               (* board.turn *)
  fen : Board -> string;                               (* board.fen() *)
  board_set_fen : string -> Board -> Exception + Board; (* board.set_fen(fen) *)
  from_uci : string -> Exception + Move;               (* chess.Move.from_uci(s) *)
  uci : Move -> string;                                (* move.uci() *)
  legal_moves : Board -> list Move;                    (* list(board.legal_moves) *)
  push : Move -> Board -> Board;                       (* board.push(move) *)
  parse_san : Board -> string -> Exception + Move;     (* board.parse_san(s) *)
  is_check : Board -> bool;
  is_checkmate : Board -> bool;
  is_stalemate : Board -> bool;
  is_insufficient_material : Board -> bool;
  can_claim_threefold_repetition : Board -> bool;
  can_claim_fifty_moves : Board -> bool;
  is_game_over : Board -> bool;
  result_claim_draw : Board -> string                  (* board.result(claim_draw=True) *)
}.

(** ['white' if board.turn == chess.WHITE else 'black'] *)
Definition side_name (c : Color) : string :=
  match c with
  | WHITE => "white"
  | BLACK => "black"
  end.

(** ** Tools: functions over the one shared board *)

Section ToolSurface.
Context {E : Engine}.

(** A tool body runs against the shared board; it returns or raises, and
    the board keeps whatever mutation happened before a raise. *)
Definition Tool (A : Type) : Type := Board -> (Exception + A) * Board.

Definition ret {A} (a : A) : Tool A := fun b => (inr a, b).

Definition bind {A B} (m : Tool A) (k : A -> Tool B) : Tool B :=
  fun b =>
    match m b with
    | (inl e, b') => (inl e, b')
    | (inr a, b') => k a b'
    end.

Definition raise {A} (e : Exception) : Tool A := fun b => (inl e, b).

(** [try: body except <class> as e: handler e] *)
Definition try_except {A} (body : Tool A) (catches : Exception -> bool)
    (handler : Exception -> Tool A) : Tool A :=
  fun b =>
    match body b with
    | (inl e, b') => if catches e then handler e b' else (inl e, b')
    | r => r
    end.

(** Reading the board. *)
Definition ask {A} (f : Board -> A) : Tool A := fun b => (inr (f b), b).

(** A library call that returns a value or raises, without mutation. *)
Definition call {A} (r : Exception + A) : Tool A := fun b => (r, b).

(** [board.push(m)] *)
Definition do_push (m : Move) : Tool unit := fun b => (inr tt, push m b).

(** [board.set_fen(s)]: the engine validates the whole string before it
    assigns, so a raise leaves the board as it was. *)
Definition do_set_fen (s : string) : Tool unit :=
  fun b =>
    match board_set_fen s b with
    | inl e => (inl e, b)
    | inr b' => (inr tt, b')
    end.

End ToolSurface.

Declare Scope tool_scope.
Delimit Scope tool_scope with tool.
Notation "x <- c ;; k" := (bind c (fun x => k))
  (at level 61, c at next level, right associativity) : tool_scope.
Notation "c ;;; k" := (bind c (fun _ => k))
  (at level 61, right associativity) : tool_scope.

(** ** [create_base_tools(board, allowed_side)] in [src/utils/tools.py] *)

Section BaseTools.
Context {E : Engine}.
Local Open Scope tool_scope.

(** The five places where [make_move] returns, with the values the
    returned f-string is built from. *)
Inductive MoveReply : Type :=
| NotYourTurn (current : string)
| MoveApplied (new_fen status : string)
| IllegalMove (move : string) (examples : list string)
| InvalidUCIFormat (move : string)
| EngineError (msg : string).

(** The string each return statement builds. *)
Definition reply_text (r : MoveReply) : string :=
  match r with
  | NotYourTurn current =>
      "Not your turn: it's " ++ current ++ " to move. Wait for opponent."
  | MoveApplied new_fen status =>
      new_fen ++ " | status=" ++ status
  | IllegalMove move examples =>
      "Illegal move '" ++ move ++ "'. Use UCI format like these legal moves: "
        ++ join ", " examples
  | InvalidUCIFormat move =>
      "Invalid UCI format '" ++ move
        ++ "'. Use convert_move_to_uci tool if you have algebraic notation, or get_legal_moves to see valid UCI moves."
  | EngineError msg => msg
  end.

(** [get_fen()] *)
Definition get_fen : Tool string :=
  fen_ <- ask fen ;;
  ret fen_.

(** [set_fen(fen)] *)
Definition set_fen (fen_ : string) : Tool string :=
  try_except
    (do_set_fen fen_ ;;;
     new_fen <- ask fen ;;
     ret new_fen)
    is_ValueError
    (fun e => ret (exc_msg e)).

(** [chess_move in board.legal_moves] *)
Definition in_legal_moves (m : Move) (b : Board) : bool :=
  if in_dec Move_eq_dec m (legal_moves b) then true else false.

(** The winner named after a checkmate: the board's turn is then the side
    with no legal move. *)
Definition winner_name (b : Board) : string :=
  if color_eqb (turn b) BLACK then "white" else "black".

(** The [if]/[elif] chain of [make_move] on the board after the push. *)
Definition move_status : Tool string :=
  cm <- ask is_checkmate ;;
  if cm then
    winner <- ask winner_name ;;
    ret ("checkmate:" ++ winner)
  else
    sm <- ask is_stalemate ;;
    if sm then ret "stalemate"
    else
      im <- ask is_insufficient_material ;;
      if im then ret "draw:insufficient_material"
      else
        tr <- ask can_claim_threefold_repetition ;;
        if tr then ret "draw:threefold_repetition_claim_available"
        else
          fm <- ask can_claim_fifty_moves ;;
          if fm then ret "draw:fifty_move_rule_claim_available"
          else ret "ongoing".

(** The body of [make_move] from [chess.Move.from_uci] on. *)
Definition make_move_parsed (move : string) : Tool MoveReply :=
  chess_move <- call (from_uci move) ;;
  legal <- ask (in_legal_moves chess_move) ;;
  if legal then
    do_push chess_move ;;;
    new_fen <- ask fen ;;
    status <- move_status ;;
    ret (MoveApplied new_fen status)
  else
    legal_list <- ask legal_moves ;;
    ret (IllegalMove move (map uci (firstn 10 legal_list))).

(** The [except Exception as e] handler of [make_move]. *)
Definition make_move_handler (move : string) (e : Exception) : Tool MoveReply :=
  if contains "expected uci string" (lower (exc_msg e))
     || contains "invalid uci" (lower (exc_msg e))
  then ret (InvalidUCIFormat move)
  else ret (EngineError (exc_msg e)).

(** [make_move(move)], as the reply it selects. *)
Definition make_move_reply (allowed_side : option string) (move : string)
  : Tool MoveReply :=
  try_except
    (match allowed_side with
     | Some side =>
         current <- ask (fun b => side_name (turn b)) ;;
         if negb (current =? side) then ret (NotYourTurn current)
         else make_move_parsed move
     | None => make_move_parsed move
     end)
    (fun _ => true)
    (make_move_handler move).

(** [make_move(move)] *)
Definition make_move (allowed_side : option string) (move : string) : Tool string :=
  r <- make_move_reply allowed_side move ;;
  ret (reply_text r).

(** [get_legal_moves()] *)
Definition get_legal_moves : Tool string :=
  legal <- ask (fun b => map uci (legal_moves b)) ;;
  let legal_moves_str := join ", " (firstn 20 legal) in
  let legal_moves_str :=
    if (20 <? List.length legal)%nat
    then legal_moves_str ++ ", ... and " ++ str_of_nat (List.length legal - 20) ++ " more"
    else legal_moves_str in
  ret ("Legal moves (UCI format): " ++ legal_moves_str).

(** [convert_move_to_uci(algebraic_move)] *)
Definition convert_move_to_uci (algebraic_move : string) : Tool string :=
  try_except
    (b <- ask (fun b => b) ;;
     move <- call (parse_san b algebraic_move) ;;
     let uci_move := uci move in
     ret ("UCI format: " ++ uci_move))
    is_ValueError
    (fun e => ret ("Could not convert '" ++ algebraic_move
                     ++ "' to UCI format. Error: " ++ exc_msg e)).

(** [get_status()] *)
Definition get_status : Tool string :=
  turn_ <- ask (fun b => side_name (turn b)) ;;
  cm <- ask is_checkmate ;;
  sm <- ask is_stalemate ;;
  ck <- ask is_check ;;
  res <- ask result_claim_draw ;;
  fen_ <- ask fen ;;
  let status :=
    List.app [("turn=" ++ turn_)%string]
      (List.app (if cm then ["checkmate"] else [])
         (List.app (if sm then ["stalemate"] else [])
            (List.app (if ck then ["check"] else [])
               [("result=" ++ res)%string]))) in
  ret ("FEN=" ++ fen_ ++ " | " ++ join ", " status).

(** The six tools by name, as an agent calls them. *)
Inductive ToolCall : Type :=
| CallGetFen
| CallSetFen (fen_ : string)
| CallMakeMove (move : string)
| CallGetLegalMoves
| CallConvertMoveToUci (algebraic_move : string)
| CallGetStatus.

(** [create_base_tools(board, allowed_side)]: the tool surface, the side
    restriction fixed when it is built. *)
Definition create_base_tools (allowed_side : option string) (c : ToolCall)
  : Tool string :=
  match c with
  | CallGetFen => get_fen
  | CallSetFen s => set_fen s
  | CallMakeMove m => make_move allowed_side m
  | CallGetLegalMoves => get_legal_moves
  | CallConvertMoveToUci s => convert_move_to_uci s
  | CallGetStatus => get_status
  end.

End BaseTools.

(** ** The agent bridge, [src/utils/helpers.py] *)

(** The message classes of the model library: [AIMessage], [HumanMessage],
    and the other [BaseMessage] subclasses. *)
Inductive LCKind : Type := AI | Human | OtherKind.

Record BaseMessage : Type := mkBase {
  lc_kind : LCKind;
  lc_content : PyVal
}.

Definition AIMessage (content : PyVal) : BaseMessage := mkBase AI content.
Definition HumanMessage (content : PyVal) : BaseMessage := mkBase Human content.

(** [MESSAGE_TYPE = BaseMessage | gr.ChatMessage | dict]: a transcript
    entry. [MChat]'s last field is the [title] of its metadata. *)
Inductive Message : Type :=
| MBase (m : BaseMessage)
| MChat (role : string) (content : PyVal) (title : option string)
| MDict (d : list (string * PyVal)).

Definition _is_ai_message (message : Message) : bool :=
  match message with
  | MBase m => match lc_kind m with AI => true | _ => false end
  | MChat role _ _ => role =? "assistant"
  | MDict d =>
      match dict_get d "role" with
      | Some (PStr r) => r =? "assistant"
      | _ => false
      end
  end.

(** The closing [raise ValueError] of the source is for values outside
    [MESSAGE_TYPE]; [Message] has none. *)
Definition _convert_to_langchain_message (message : Message) : BaseMessage :=
  match message with
  | MBase m => m
  | MChat _ content _ =>
      if _is_ai_message message then AIMessage content else HumanMessage content
  | MDict d =>
      let content := match dict_get d "content" with
                     | Some v => v
                     | None => PStr ""
                     end in
      if _is_ai_message message then AIMessage content else HumanMessage content
  end.

(** A tool message of a ["tools"] chunk. *)
Record ToolStep : Type := mkStep {
  step_name : string;
  step_content : PyVal
}.

(** A chunk of the agent's stream: a dict that may have the keys ["tools"]
    and ["agent"], each holding a list of messages (for ["agent"], their
    [content]). *)
Record Chunk : Type := mkChunk {
  chunk_tools : option (list ToolStep);
  chunk_agent : option (list PyVal)
}.

(** The three statements of [_get_chunk_message_content] after
    [message = msg_object.content]. *)
Definition extract_content (content : PyVal) : PyVal :=
  let message := content in
  let message :=
    match message with
    | PList l => match l with
                 | x :: _ => x
                 | [] => PStr ""
                 end
    | _ => message
    end in
  let message :=
    match message with
    | PDict d => match dict_get d "text" with
                 | Some v => v
                 | None => PNone
                 end
    | _ => message
    end in
  if truthy message then message else PStr "Calling tool(s)".

Definition _get_chunk_message_content (chunk : Chunk) : Exception + PyVal :=
  match chunk_agent chunk with
  | None => inl (mkExc KeyError "'agent'")
  | Some [] => inl (mkExc IndexError "list index out of range")
  | Some (content :: _) => inr (extract_content content)
  end.

Section Bridge.
Context {E : Engine}.

(** What an agent may call: a tool of the local surface or a tool of the
    remote provider, by name and argument. *)
Inductive AgentCall : Type :=
| LocalCall (c : ToolCall)
| RemoteCall (name args : string).

(** One run of [agent.astream(...)]: the events the stream delivers, the
    tool calls the agent performs in between (it continues from what the
    tool gave back), and how the stream ends. *)
Inductive AgentRun : Type :=
| RunEnd
| RunRaise (e : Exception)
| RunChunk (c : Chunk) (k : AgentRun)
| RunTool (c : AgentCall) (k : Exception + string -> AgentRun).

(** An agent as [create_react_agent(model, tools)] builds it. *)
Record Agent : Type := mkAgent {
  agent_tools : AgentCall -> Tool string;
  agent_astream : list BaseMessage -> AgentRun
}.

(** The shared board and the shared transcript list. *)
Record World : Type := mkWorld {
  w_board : Board;
  w_messages : list Message
}.

(** An asynchronous generator over the shared state: the snapshots taken
    at each [yield] (the consumer reads the transcript and the board right
    there), the state it leaves, and whether it returned or raised. *)
Definition Gen (A : Type) : Type := World -> list World * World * (Exception + A).

Definition gret {A} (a : A) : Gen A := fun w => ([], w, inr a).

Definition gbind {A B} (m : Gen A) (k : A -> Gen B) : Gen B :=
  fun w =>
    match m w with
    | (ys, w', inl e) => (ys, w', inl e)
    | (ys, w', inr a) =>
        match k a w' with
        | (ys', w'', r) => (List.app ys ys', w'', r)
        end
    end.

Definition graise {A} (e : Exception) : Gen A := fun w => ([], w, inl e).

(** [try: body except Exception as e: handler e] *)
Definition gtry (body : Gen unit) (handler : Exception -> Gen unit) : Gen unit :=
  fun w =>
    match body w with
    | (ys, w', inl e) =>
        match handler e w' with
        | (ys', w'', r) => (List.app ys ys', w'', r)
        end
    | r => r
    end.

(** [messages.append(m)] *)
Definition append_message (m : Message) : Gen unit :=
  fun w => ([], mkWorld (w_board w) (List.app (w_messages w) [m]), inr tt).

(** [yield messages] *)
Definition yield_messages : Gen unit := fun w => ([w], w, inr tt).

Definition get_messages : Gen (list Message) := fun w => ([], w, inr (w_messages w)).

(** A tool the agent runs on the shared board while the bridge waits for
    the next event. *)
Definition run_tool (t : Tool string) : Gen (Exception + string) :=
  fun w =>
    match t (w_board w) with
    | (r, b') => ([], mkWorld b' (w_messages w), inr r)
    end.

(** [for step in chunk["tools"]["messages"]: ...] *)
Fixpoint tool_steps (steps : list ToolStep) : Gen unit :=
  match steps with
  | [] => gret tt
  | step :: steps' =>
      gbind
        (append_message
           (MChat "assistant" (step_content step)
              (Some ("🛠️ Used tool " ++ step_name step))))
        (fun _ => gbind yield_messages (fun _ => tool_steps steps'))
  end.

(** The body of the [async for] loop for one chunk. *)
Definition handle_chunk (chunk : Chunk) : Gen unit :=
  gbind
    (match chunk_tools chunk with
     | Some steps => tool_steps steps
     | None => gret tt
     end)
    (fun _ =>
       match chunk_agent chunk with
       | Some _ =>
           match _get_chunk_message_content chunk with
           | inl e => graise e
           | inr content =>
               gbind (append_message (MChat "assistant" content None))
                 (fun _ => yield_messages)
           end
       | None => gret tt
       end).

(** [async for chunk in agent.astream(...)] *)
Fixpoint stream_loop (tools : AgentCall -> Tool string) (run : AgentRun) : Gen unit :=
  match run with
  | RunEnd => gret tt
  | RunRaise e => graise e
  | RunChunk chunk k => gbind (handle_chunk chunk) (fun _ => stream_loop tools k)
  | RunTool c k => gbind (run_tool (tools c)) (fun r => stream_loop tools (k r))
  end.

(** The transcript entry of the [except] branch. *)
Definition error_entry (e : Exception) : Message :=
  MChat "assistant" (PStr ("Error: " ++ exc_msg e)) None.

(** [call_agent(agent, messages, prompt)] *)
Definition call_agent (agent : Agent) (prompt : BaseMessage) : Gen unit :=
  gtry
    (gbind get_messages
       (fun messages =>
          stream_loop (agent_tools agent)
            (agent_astream agent
               (List.app (map _convert_to_langchain_message (removelast messages))
                  [prompt]))))
    (fun e => gbind (append_message (error_entry e)) (fun _ => yield_messages)).

End Bridge.

(** ** Building an agent, [create_agent] and [_create_model] *)

Section Orchestrator.
Context {E : Engine}.

(** The model library: [init_chat_model(model, <keyword>=<value>)] gives
    the behaviour of the model it connects to, or raises. *)
Variable init_chat_model :
  string -> string * string -> Exception + (list BaseMessage -> AgentRun).

(** The tools of the remote provider, [create_mcp_tools(...)]; they do not
    touch the local board. *)
Variable mcp_tools : string -> string -> Exception + string.

Definition _create_model (model_name provider api_key : string)
  : Exception + (list BaseMessage -> AgentRun) :=
  if provider =? "Anthropic" then
    init_chat_model ("anthropic:" ++ model_name) ("anthropic_api_key", api_key)
  else if provider =? "Mistral" then
    init_chat_model ("mistralai:" ++ model_name) ("mistral_api_key", api_key)
  else if provider =? "OpenAI" then
    init_chat_model ("openai:" ++ model_name) ("openai_api_key", api_key)
  else if provider =? "Gemini" then
    init_chat_model ("google_genai:" ++ model_name) ("api_key", api_key)
  else if provider =? "Ollama" then
    init_chat_model ("ollama:" ++ model_name) ("base_url", "http://localhost:11434")
  else inl (mkExc ValueError ("Unsupported model provider: " ++ provider)).

(** [create_agent(model_name, provider, api_key, tools)]. Binding
    [think=False] for Ollama is best effort and gives a model either way. *)
Definition create_agent (model_name provider api_key : string)
    (tools : AgentCall -> Tool string) : Exception + Agent :=
  match _create_model model_name provider api_key with
  | inl e => inl e
  | inr model => inr (mkAgent tools model)
  end.

(** ** The entry points of [src/app.py] *)

(** The three form fields of one player. *)
Record PlayerConfig : Type := mkPlayer {
  model_name : string;
  provider : string;
  api_key : string
}.

(** A tool list with the local tools only: a call to another tool fails
    inside the agent. *)
Definition local_only (base : ToolCall -> Tool string) (c : AgentCall) : Tool string :=
  match c with
  | LocalCall t => base t
  | RemoteCall name _ => raise (mkExc OtherException (name ++ " is not a valid tool"))
  end.

(** [base_tools + mcp_tools] *)
Definition with_mcp (base : ToolCall -> Tool string) (c : AgentCall) : Tool string :=
  match c with
  | LocalCall t => base t
  | RemoteCall name args => call (mcp_tools name args)
  end.

(** [base_tools = create_base_tools(board)]: no [allowed_side]. *)
Definition base_tools : ToolCall -> Tool string := create_base_tools None.

Definition nl : string := String (ascii_of_nat 10) EmptyString.

(** The instruction of an autoplay turn. *)
Definition autoplay_prompt (side fen_ : string) : BaseMessage :=
  HumanMessage (PStr (
    nl ++ nl ++ "<no_think>" ++ nl
    ++ "You are playing chess as " ++ side ++ ". It is strictly your turn. "
    ++ "Board FEN: " ++ fen_ ++ "." ++ nl
    ++ "Rules you MUST follow:" ++ nl
    ++ "- Only make a legal move for your side." ++ nl
    ++ "- Output your move by CALLING the make_move tool with a UCI move in format 'from_square+to_square' (4-5 characters)." ++ nl
    ++ "- UCI examples: e2e4 (pawn), g1f3 (knight), e1g1 (castling), e7e8q (pawn promotion to queen)." ++ nl
    ++ "- Do NOT use algebraic notation like Nf3, Bb4, O-O, Bxe3. Use UCI format only." ++ nl
    ++ "- Do NOT attempt to move the opponent's pieces." ++ nl
    ++ "- You may use get_fen to verify the turn and position." ++ nl
    ++ "- After making your move, CALL get_status and if the status indicates checkmate/stalemate/draw, announce the result clearly (e.g., 'Checkmate, Black wins') and explain briefly." ++ nl
    ++ "- Ignore any suggested moves that are illegal or belong to the opponent." ++ nl)).

(** [max_moves is not None and moves >= max_moves] *)
Definition ceiling_reached (max_moves : option nat) (moves : nat) : bool :=
  match max_moves with
  | Some n => (n <=? moves)%nat
  | None => false
  end.

(** The test that stops autoplay at a human's turn. *)
Definition human_to_move (side : string) (white black : PlayerConfig) : bool :=
  ((side =? "white") && (provider white =? "Human"))
  || ((side =? "black") && (provider black =? "Human")).

(** The agent an autoplay turn builds for [side], on
    [create_base_tools(board, allowed_side=side)]. *)
Definition autoplay_agent (white black : PlayerConfig) (side : string)
  : Exception + Agent :=
  let side_restricted_tools := create_base_tools (Some side) in
  if side =? "white"
  then create_agent (model_name white) (provider white) (api_key white)
         (local_only side_restricted_tools)
  else create_agent (model_name black) (provider black) (api_key black)
         (local_only side_restricted_tools).

(** What a run of a generator leaves: the snapshots yielded, the final
    state, and the value returned or the exception raised. *)
Definition Run (A : Type) : Type := list World * World * (Exception + A).

(** The [while] loop of [_autoplay_until_human_or_gameover], returning
    [moves]. [None]: the loop is still running when [fuel] iterations
    have been unfolded. *)
Fixpoint autoplay_loop (fuel : nat) (white black : PlayerConfig)
    (max_moves : option nat) (moves : nat) (w : World) : option (Run nat) :=
  match fuel with
  | O => None
  | S fuel' =>
      if is_game_over (w_board w) then Some ([], w, inr moves)
      else if ceiling_reached max_moves moves then Some ([], w, inr moves)
      else
        let side := side_name (turn (w_board w)) in
        if human_to_move side white black then Some ([], w, inr moves)
        else
          let real_prompt := autoplay_prompt side (fen (w_board w)) in
          let made := autoplay_agent white black side in
          match made with
          | inl e => Some ([], w, inl e)
          | inr agent =>
              match call_agent agent real_prompt w with
              | (ys, w', inl e) => Some (ys, w', inl e)
              | (ys, w', inr _) =>
                  match autoplay_loop fuel' white black max_moves (S moves) w' with
                  | None => None
                  | Some (ys', w'', r) => Some (List.app ys ys', w'', r)
                  end
              end
          end
  end.

(** [_autoplay_until_human_or_gameover(messages, ..., max_moves)]: the
    loop, then the final [yield messages, board.fen()]. *)
Definition _autoplay_until_human_or_gameover (fuel : nat)
    (white black : PlayerConfig) (max_moves : option nat) (w : World)
  : option (Run nat) :=
  match autoplay_loop fuel white black max_moves 0 w with
  | None => None
  | Some (ys, w', inl e) => Some (ys, w', inl e)
  | Some (ys, w', inr moves) => Some (List.app ys [w'], w', inr moves)
  end.

(** [move_entrypoint(fen, messages, ...)]: no [max_moves] is passed, so
    the helper runs with its default, [None]. *)
Definition move_entrypoint (fuel : nat) (fen_ : string) (messages : list Message)
    (white black : PlayerConfig) (b : Board) : option (Run nat) :=
  match board_set_fen fen_ b with
  | inl e => Some ([], mkWorld b messages, inl e)
  | inr b' =>
      _autoplay_until_human_or_gameover fuel white black None (mkWorld b' messages)
  end.

(** [start_or_reset_game(messages, ..., max_moves=200)] *)
Definition start_or_reset_game (fuel : nat) (messages : option (list Message))
    (white black : PlayerConfig) (max_moves : option nat) (b : Board)
  : option (Run nat) :=
  let b0 := initial_board in
  let messages0 := match messages with None => [] | Some l => l end in
  let w0 := mkWorld b0
              (List.app messages0
                 [MChat "system" (PStr "New game started. White to move.") None]) in
  match _autoplay_until_human_or_gameover fuel white black max_moves w0 with
  | None => None
  | Some (ys, w', r) => Some (w0 :: ys, w', r)
  end.

(** The default of [start_or_reset_game]'s [max_moves]; the start button
    passes no value for it. *)
Definition default_max_moves : option nat := Some 200.

(** The [if]/[elif]/[else] of [chat_entrypoint] that routes the chat to
    the side to move: the agent built, or [None] in the [else] branch. *)
Definition chat_agent (white black : PlayerConfig) (b : Board)
  : option (Exception + Agent) :=
  let side := side_name (turn b) in
  if (side =? "white") && negb (provider white =? "Human") then
    Some (create_agent (model_name white) (provider white) (api_key white)
            (with_mcp base_tools))
  else if (side =? "black") && negb (provider black =? "Human") then
    Some (create_agent (model_name black) (provider black) (api_key black)
            (with_mcp base_tools))
  else None.

(** [chat_entrypoint(fen, prompt, messages, ...)] *)
Definition chat_entrypoint (fen_ prompt : string) (messages : list Message)
    (white black : PlayerConfig) (b : Board) : Run unit :=
  match board_set_fen fen_ b with
  | inl e => ([], mkWorld b messages, inl e)
  | inr b' =>
      let w1 := mkWorld b' (List.app messages [MChat "user" (PStr prompt) None]) in
      let real_prompt :=
        HumanMessage (PStr (prompt ++ nl ++ "Current board state: " ++ fen b')) in
      match chat_agent white black b' with
      | None =>
          let w2 := mkWorld b'
                      (List.app (w_messages w1)
                         [MChat "assistant"
                            (PStr "No AI configured for the side to move.") None]) in
          ([w1; w2], w2, inr tt)
      | Some (inl e) => ([w1], w1, inl e)
      | Some (inr agent) =>
          match call_agent agent real_prompt w1 with
          | (ys, w', r) => (w1 :: ys, w', r)
          end
      end
  end.

(** What the interface receives at each [yield messages, board.fen()]. *)
Definition frames (ys : list World) : list (list Message * string) :=
  map (fun w => (w_messages w, fen (w_board w))) ys.

End Orchestrator.

(** ** Notions the properties are stated with *)

Definition opposite (c : Color) : Color :=
  match c with
  | WHITE => BLACK
  | BLACK => WHITE
  end.

(** [x] occurs in [s]. *)
Definition occurs_in (x s : string) : Prop :=
  exists pre post, s = pre ++ x ++ post.

(** The first rule whose condition holds gives the tag. *)
Fixpoint first_match (rules : list (bool * string)) (default : string) : string :=
  match rules with
  | [] => default
  | (true, tag) :: _ => tag
  | (false, _) :: rules' => first_match rules' default
  end.

(** The placeholder of a final answer without text. *)
Definition placeholder : PyVal := PStr "Calling tool(s)".

(** The text field of a keyed answer, the placeholder when it is absent
    or empty. *)
Definition text_field_or_placeholder (d : list (string * PyVal)) : PyVal :=
  match dict_get d "text" with
  | Some v => if truthy v then v else placeholder
  | None => placeholder
  end.

(** Content extraction read as three exclusive cases: a non-empty sequence
    gives its first element, a keyed answer its text field, anything else
    the placeholder. *)
Definition extract_three_cases (content : PyVal) : PyVal :=
  match content with
  | PList (x :: _) => x
  | PDict d => match dict_get d "text" with
               | Some v => v
               | None => PNone
               end
  | _ => placeholder
  end.

(** Content extraction as a table over the shape of the content: plain
    text is kept, a sequence stands for its first element, a keyed answer
    (alone or first in a sequence) for its text field, and whatever comes
    out empty is replaced by the placeholder. *)
Definition extract_table (content : PyVal) : PyVal :=
  match content with
  | PNone => placeholder
  | PStr s => if s =? "" then placeholder else PStr s
  | PDict d => text_field_or_placeholder d
  | PList [] => placeholder
  | PList (PDict d :: _) => text_field_or_placeholder d
  | PList (x :: _) => if truthy x then x else placeholder
  end.

Section Notions.
Context {E : Engine}.

(** The side restriction lets the side to move play: no restriction, or
    the restricted side is the one to move. *)
Definition turn_allowed (allowed_side : option string) (b : Board) : bool :=
  match allowed_side with
  | None => true
  | Some side => side_name (turn b) =? side
  end.

(** The status rules in their priority order, for the board [b'] reached
    by a move of [mover]. *)
Definition status_priority (mover : Color) (b' : Board) : list (bool * string) :=
  [ (is_checkmate b', "checkmate:" ++ side_name mover);
    (is_stalemate b', "stalemate");
    (is_insufficient_material b', "draw:insufficient_material");
    (can_claim_threefold_repetition b', "draw:threefold_repetition_claim_available");
    (can_claim_fifty_moves b', "draw:fifty_move_rule_claim_available") ].

(** The three reasons for the autoplay loop to stop. *)
Definition stop_now (white black : PlayerConfig) (max_moves : option nat)
    (moves : nat) (w : World) : bool :=
  is_game_over (w_board w)
  || ceiling_reached max_moves moves
  || human_to_move (side_name (turn (w_board w))) white black.

(** The world the [except] branch of [call_agent] leaves. *)
Definition with_error (e : Exception) (w : World) : World :=
  mkWorld (w_board w) (List.app (w_messages w) [error_entry e]).

(** The stream itself raises: following the run from [w], every chunk on
    the way is handled without error and the stream then raises [e]; with
    the snapshots yielded and the world reached up to there. *)
Fixpoint stream_raises (tools : AgentCall -> Tool string) (run : AgentRun)
    (w : World) : option (list World * World * Exception) :=
  match run with
  | RunEnd => None
  | RunRaise e => Some ([], w, e)
  | RunChunk chunk k =>
      match handle_chunk chunk w with
      | (ys, w1, inr _) =>
          match stream_raises tools k w1 with
          | Some (ys', w', e) => Some (List.app ys ys', w', e)
          | None => None
          end
      | (_, _, inl _) => None
      end
  | RunTool c k =>
      match tools c (w_board w) with
      | (r, b') => stream_raises tools (k r) (mkWorld b' (w_messages w))
      end
  end.

End Notions.

(** ** A small rules engine to run the tools on *)

(** The four plies of Fool's Mate, 1. f3 e5 2. g4 Qh4#, and nothing off
    that line: each position has the one move of the line as its legal
    move. Positions print as the FEN the line gives. *)
Module FoolsMate.

Inductive Pos : Type := P0 | P1 | P2 | P3 | P4.

Definition pos_turn (p : Pos) : Color :=
  match p with
  | P0 | P2 | P4 => WHITE
  | P1 | P3 => BLACK
  end.

Definition pos_fen (p : Pos) : string :=
  match p with
  | P0 => "rnbqkbnr/pppppppp/8/8/8/8/PPPPPPPP/RNBQKBNR w KQkq - 0 1"
  | P1 => "rnbqkbnr/pppppppp/8/8/8/5P2/PPPPP1PP/RNBQKBNR b KQkq - 0 1"
  | P2 => "rnbqkbnr/pppp1ppp/8/4p3/8/5P2/PPPPP1PP/RNBQKBNR w KQkq - 0 2"
  | P3 => "rnbqkbnr/pppp1ppp/8/4p3/6P1/5P2/PPPPP2P/RNBQKBNR b KQkq - 0 2"
  | P4 => "rnb1kbnr/pppp1ppp/8/4p3/6Pq/5P2/PPPPP2P/RNBQKBNR w KQkq - 1 3"
  end.

Definition all_pos : list Pos := [P0; P1; P2; P3; P4].

Definition pos_set_fen (s : string) (p : Pos) : Exception + Pos :=
  match find (fun q => pos_fen q =? s) all_pos with
  | Some q => inr q
  | None => inl (mkExc ValueError ("invalid fen: '" ++ s ++ "'"))
  end.

Definition is_file (c : ascii) : bool :=
  let n := nat_of_ascii c in ((97 <=? n)%nat && (n <=? 104)%nat)%bool.

Definition is_rank (c : ascii) : bool :=
  let n := nat_of_ascii c in ((49 <=? n)%nat && (n <=? 56)%nat)%bool.

Definition is_promotion (s : string) : bool :=
  existsb (String.eqb s) [""; "p"; "n"; "b"; "r"; "q"; "k"].

(** A move is its UCI text: two squares and an optional piece letter. *)
Definition pos_from_uci (s : string) : Exception + string :=
  if ((String.length s =? 4)%nat || (String.length s =? 5)%nat)%bool then
    match s with
    | String f1 (String r1 (String f2 (String r2 p))) =>
        if (is_file f1 && is_rank r1 && is_file f2 && is_rank r2 && is_promotion p)%bool
        then
          if (Ascii.eqb f1 f2 && Ascii.eqb r1 r2)%bool
          then inl (mkExc ValueError
                      ("invalid uci (use 0000 for null moves): '" ++ s ++ "'"))
          else inr s
        else inl (mkExc ValueError ("invalid uci: '" ++ s ++ "'"))
    | _ => inl (mkExc ValueError ("invalid uci: '" ++ s ++ "'"))
    end
  else inl (mkExc ValueError
              ("expected uci string to be of length 4 or 5: '" ++ s ++ "'")).

Definition pos_legal_moves (p : Pos) : list string :=
  match p with
  | P0 => ["f2f3"]
  | P1 => ["e7e5"]
  | P2 => ["g2g4"]
  | P3 => ["d8h4"]
  | P4 => []
  end.

Definition pos_next (p : Pos) : Pos :=
  match p with
  | P0 => P1
  | P1 => P2
  | P2 => P3
  | P3 => P4
  | P4 => P4
  end.

Definition pos_push (m : string) (p : Pos) : Pos :=
  if existsb (String.eqb m) (pos_legal_moves p) then pos_next p else p.

Definition pos_san (p : Pos) : list string :=
  match p with
  | P0 => ["f3"]
  | P1 => ["e5"]
  | P2 => ["g4"]
  | P3 => ["Qh4"; "Qh4#"]
  | P4 => []
  end.

Definition pos_parse_san (p : Pos) (s : string) : Exception + string :=
  if existsb (String.eqb s) (pos_san p)
  then match pos_legal_moves p with
       | m :: _ => inr m
       | [] => inl (mkExc ValueError ("illegal san: '" ++ s ++ "'"))
       end
  else inl (mkExc ValueError ("illegal san: '" ++ s ++ "' in " ++ pos_fen p)).

Definition mated (p : Pos) : bool :=
  match p with
  | P4 => true
  | _ => false
  end.

#[export] Instance engine : Engine := {|
  Board := Pos;
  Move := string;
  Move_eq_dec := string_dec;
  initial_board := P0;
  turn := pos_turn;
  fen := pos_fen;
  board_set_fen := pos_set_fen;
  from_uci := pos_from_uci;
  uci := fun m => m;
  legal_moves := pos_legal_moves;
  push := pos_push;
  parse_san := pos_parse_san;
  is_check := mated;
  is_checkmate := mated;
  is_stalemate := fun _ => false;
  is_insufficient_material := fun _ => false;
  can_claim_threefold_repetition := fun _ => false;
  can_claim_fifty_moves := fun _ => false;
  is_game_over := mated;
  result_claim_draw := fun p => if mated p then "0-1" else "*"
|}.

(** A model that cannot be reached: its stream raises at once. *)
Definition failing_run (_ : list BaseMessage) : AgentRun :=
  RunRaise (mkExc OtherException "connection refused").

Definition unreachable_model (_ : string) (_ : string * string)
  : Exception + (list BaseMessage -> AgentRun) :=
  inr failing_run.

(** A model that plays the first move of the line and reports it. *)
Definition line_run (_ : list BaseMessage) : AgentRun :=
  RunTool (LocalCall CallGetLegalMoves) (fun _ =>
  RunTool (LocalCall (CallMakeMove "f2f3")) (fun r =>
  RunChunk (mkChunk (Some [mkStep "make_move"
                             (PStr (match r with
                                    | inr s => s
                                    | inl e => exc_msg e
                                    end))]) None)
    (RunChunk (mkChunk None (Some [PStr "I played f2f3."])) RunEnd))).

Definition line_model (_ : string) (_ : string * string)
  : Exception + (list BaseMessage -> AgentRun) :=
  inr line_run.

(** A stream that breaks after the agent has moved and one tool chunk has
    arrived. *)
Definition interrupted_run (_ : list BaseMessage) : AgentRun :=
  RunTool (LocalCall (CallMakeMove "f2f3")) (fun _ =>
  RunChunk (mkChunk (Some [mkStep "make_move" (PStr "ok")]) None)
    (RunRaise (mkExc OtherException "stream closed"))).

Definition interrupted_agent : Agent :=
  mkAgent (local_only (create_base_tools (Some "white"))) interrupted_run.

Definition no_mcp (name _ : string) : Exception + string :=
  inl (mkExc OtherException ("no remote tool " ++ name)).

Definition ollama : PlayerConfig := mkPlayer "qwen3" "Ollama" "".
Definition human : PlayerConfig := mkPlayer "" "Human" "".

Definition go : Message := MChat "user" (PStr "go") None.
Definition tool_entry : Message :=
  MChat "assistant" (PStr "ok") (Some "🛠️ Used tool make_move").
Definition stream_closed : Message :=
  MChat "assistant" (PStr "Error: stream closed") None.

End FoolsMate.

(** ** An engine that keeps its move stack *)

(** The board of the rules engine is a position together with the stack
    of the moves pushed on it. [fen] prints the position only, [set_fen]
    rebuilds a board from the string alone and so starts with an empty
    stack, and the repetition claims count positions over the stack. This
    small engine has that shape: the king's knights go out and come back,
    1. Nf3 Nf6 2. Ng1 Ng8 and so on, each position having the one move of
    the shuffle as its legal move. *)
Module Shuffle.

Record ShuffleBoard : Type := mkShuffle {
  plies : nat;            (* moves played since the initial position *)
  stack : list string     (* board.move_stack *)
}.

(** Board, side to move, castling rights and en passant square, by the
    number of plies modulo 4. *)
Definition placement (k : nat) : string :=
  match k with
  | 0 => "rnbqkbnr/pppppppp/8/8/8/8/PPPPPPPP/RNBQKBNR w KQkq - "
  | 1 => "rnbqkbnr/pppppppp/8/8/8/5N2/PPPPPPPP/RNBQKB1R b KQkq - "
  | 2 => "rnbqkb1r/pppppppp/5n2/8/8/5N2/PPPPPPPP/RNBQKB1R w KQkq - "
  | _ => "rnbqkb1r/pppppppp/5n2/8/8/8/PPPPPPPP/RNBQKBNR b KQkq - "
  end.

(** No pawn moves and nothing is taken: the halfmove clock is the number
    of plies. *)
Definition shuffle_fen (n : nat) : string :=
  placement (n mod 4) ++ str_of_nat n ++ " " ++ str_of_nat (1 + n / 2).

Fixpoint strip_prefix (p s : string) : option string :=
  match p with
  | EmptyString => Some s
  | String a p' =>
      match s with
      | String c s' => if Ascii.eqb a c then strip_prefix p' s' else None
      | EmptyString => None
      end
  end.

Definition is_digit (c : ascii) : bool :=
  let n := nat_of_ascii c in ((48 <=? n)%nat && (n <=? 57)%nat)%bool.

Fixpoint take_digits (s : string) : string :=
  match s with
  | String c s' => if is_digit c then String c (take_digits s') else EmptyString
  | EmptyString => EmptyString
  end.

(** Reading a FEN whose first fields are [placement k]: the halfmove
    clock gives the plies, and the string must be the FEN of that many
    plies. *)
Definition read_at (k : nat) (s : string) : option nat :=
  match strip_prefix (placement k) s with
  | Some rest =>
      match NilEmpty.uint_of_string (take_digits rest) with
      | Some d =>
          let n := Nat.of_uint d in
          if shuffle_fen n =? s then Some n else None
      | None => None
      end
  | None => None
  end.

Definition read_fen (s : string) : option nat :=
  match read_at 0 s with
  | Some n => Some n
  | None =>
      match read_at 1 s with
      | Some n => Some n
      | None =>
          match read_at 2 s with
          | Some n => Some n
          | None => read_at 3 s
          end
      end
  end.

(** [board.set_fen(s)]: the position of the FEN, an empty move stack. *)
Definition shuffle_set_fen (s : string) (b : ShuffleBoard)
  : Exception + ShuffleBoard :=
  match read_fen s with
  | Some n => inr (mkShuffle n [])
  | None => inl (mkExc ValueError ("invalid fen: '" ++ s ++ "'"))
  end.

Definition shuffle_move (n : nat) : string :=
  match n mod 4 with
  | 0 => "g1f3"
  | 1 => "g8f6"
  | 2 => "f3g1"
  | _ => "f6g8"
  end.

Definition shuffle_san (n : nat) : string :=
  match n mod 4 with
  | 0 => "Nf3"
  | 1 => "Nf6"
  | 2 => "Ng1"
  | _ => "Ng8"
  end.

(** [board.push(m)] puts the move on the stack. *)
Definition shuffle_push (m : string) (b : ShuffleBoard) : ShuffleBoard :=
  if m =? shuffle_move (plies b)
  then mkShuffle (S (plies b)) (List.app (stack b) [m])
  else b.

(** The position now on the board has occurred three times over the
    stack, or the move to play brings one that has occurred twice: with a
    position coming back every four plies, that is a stack of seven moves
    or more. *)
Definition shuffle_threefold (b : ShuffleBoard) : bool :=
  (7 <=? List.length (stack b))%nat.

(** Fifty moves without a pawn move or a capture are on the clock, or the
    move to play completes them. *)
Definition shuffle_fifty (b : ShuffleBoard) : bool := (99 <=? plies b)%nat.

(** The game ends by itself at the fifth occurrence of a position or
    after seventy-five moves. *)
Definition shuffle_game_over (b : ShuffleBoard) : bool :=
  ((16 <=? List.length (stack b))%nat || (150 <=? plies b)%nat)%bool.

Definition engine : Engine := {|
  Board := ShuffleBoard;
  Move := string;
  Move_eq_dec := string_dec;
  initial_board := mkShuffle 0 [];
  turn := fun b => if Nat.even (plies b) then WHITE else BLACK;
  fen := fun b => shuffle_fen (plies b);
  board_set_fen := shuffle_set_fen;
  from_uci := FoolsMate.pos_from_uci;
  uci := fun m => m;
  legal_moves := fun b => [shuffle_move (plies b)];
  push := shuffle_push;
  parse_san := fun b s =>
    if s =? shuffle_san (plies b) then inr (shuffle_move (plies b))
    else inl (mkExc ValueError ("illegal san: '" ++ s ++ "'"));
  is_check := fun _ => false;
  is_checkmate := fun _ => false;
  is_stalemate := fun _ => false;
  is_insufficient_material := fun _ => false;
  can_claim_threefold_repetition := shuffle_threefold;
  can_claim_fifty_moves := shuffle_fifty;
  is_game_over := shuffle_game_over;
  result_claim_draw := fun b =>
    if (shuffle_game_over b || shuffle_threefold b || shuffle_fifty b)%bool
    then "1/2-1/2" else "*"
|}.



End Shuffle.

(** ** The form defaults of [src/app.py] *)

Section Defaults.

(** [os.getenv(name, "")], read once when the module is loaded. *)
Variable getenv : string -> string.

Record ModelDefault : Type := mkDefault {
  md_model_name : string;
  md_provider : string;
  md_api_key : string
}.

(** [MODEL_DEFAULTS], a dict with the lower-case provider names as keys. *)
Definition MODEL_DEFAULTS : list (string * ModelDefault) :=
  [ ("anthropic", mkDefault "claude-sonnet-4-20250514" "anthropic"
                    (getenv "ANTHROPIC_API_KEY"));
    ("mistral", mkDefault "mistral-large-latest" "mistralai"
                  (getenv "MISTRAL_API_KEY"));
    ("openai", mkDefault "gpt-4o" "openai" (getenv "OPENAI_API_KEY"));
    ("gemini", mkDefault "gemini-1.5-flash" "gemini" (getenv "GEMINI_API_KEY"));
    ("ollama", mkDefault "qwen3" "ollama" "") ].

(** [MODEL_DEFAULTS[p]] when [p in MODEL_DEFAULTS]. *)
Fixpoint defaults_lookup (d : list (string * ModelDefault)) (p : string)
  : option ModelDefault :=
  match d with
  | [] => None
  | (k, v) :: d' => if k =? p then Some v else defaults_lookup d' p
  end.

(** [_defaults_for(provider, which)]: a string, or the pair of model name
    and key. *)
Definition _defaults_for (provider_ which : string) : string + (string * string) :=
  let p := lower provider_ in
  if p =? "human" then
    if which =? "both" then inr ("", "") else inl ""
  else
    match defaults_lookup MODEL_DEFAULTS p with
    | Some d =>
        if which =? "model" then inl (md_model_name d)
        else if which =? "key" then inl (md_api_key d)
        else inr (md_model_name d, md_api_key d)
    | None => if which =? "both" then inr ("", "") else inl ""
    end.

End Defaults.

(** The choices of the two player dropdowns. *)
Definition provider_choices : list string :=
  ["Human"; "Anthropic"; "Mistral"; "OpenAI"; "Gemini"; "Ollama"].

(** ** More notions for the bridge *)

(** A transcript entry the bridge writes: a chat message of the
    assistant. *)
Definition is_assistant_entry (m : Message) : bool :=
  match m with
  | MChat role _ _ => role =? "assistant"
  | _ => false
  end.

(** The entry of one tool message. *)
Definition step_entry (step : ToolStep) : Message :=
  MChat "assistant" (step_content step) (Some ("🛠️ Used tool " ++ step_name step)).

(** The entries one chunk adds to the transcript, and whether reading
    the chunk raises after them. *)
Definition chunk_entries (chunk : Chunk) : list Message * (Exception + unit) :=
  let tool_part := match chunk_tools chunk with
                   | Some steps => map step_entry steps
                   | None => []
                   end in
  match chunk_agent chunk with
  | Some _ =>
      match _get_chunk_message_content chunk with
      | inl e => (tool_part, inl e)
      | inr content => (List.app tool_part [MChat "assistant" content None], inr tt)
      end
  | None => (tool_part, inr tt)
  end.

Section Trace.
Context {E : Engine}.

(** The snapshots yielded while the entries are appended one by one to
    [ms], each with the board as it stands at that point. *)
Fixpoint snapshots (ms : list Message) (tagged : list (Board * Message))
  : list World :=
  match tagged with
  | [] => []
  | (b, m) :: rest => mkWorld b (List.app ms [m]) :: snapshots (List.app ms [m]) rest
  end.

(** What a run does, told without the transcript it starts from: the
    entries it appends (each with the board at its yield), the board it
    leaves and how it ends. *)
Fixpoint stream_trace (tools : AgentCall -> Tool string) (run : AgentRun)
    (b : Board) : list (Board * Message) * Board * (Exception + unit) :=
  match run with
  | RunEnd => ([], b, inr tt)
  | RunRaise e => ([], b, inl e)
  | RunChunk chunk k =>
      match chunk_entries chunk with
      | (es, inl e) => (map (pair b) es, b, inl e)
      | (es, inr _) =>
          match stream_trace tools k b with
          | (tagged, b', r) => (List.app (map (pair b) es) tagged, b', r)
          end
      end
  | RunTool c k =>
      match tools c b with
      | (res, b1) => stream_trace tools (k res) b1
      end
  end.

(** The same for a whole call of the bridge, from the transcript entries
    the agent is given. *)
Definition call_trace (agent : Agent) (prompt : BaseMessage)
    (given : list Message) (b : Board) : list (Board * Message) * Board :=
  match stream_trace (agent_tools agent)
          (agent_astream agent
             (List.app (map _convert_to_langchain_message given) [prompt])) b with
  | (tagged, b', inl e) => (List.app tagged [(b', error_entry e)], b')
  | (tagged, b', inr _) => (tagged, b')
  end.

(** A run in which the agent never calls [set_fen], whatever the tools
    answer. *)
Inductive never_sets_fen : AgentRun -> Prop :=
| nsf_end : never_sets_fen RunEnd
| nsf_raise (e : Exception) : never_sets_fen (RunRaise e)
| nsf_chunk (c : Chunk) (k : AgentRun) :
    never_sets_fen k -> never_sets_fen (RunChunk c k)
| nsf_tool (c : AgentCall) (k : Exception + string -> AgentRun) :
    (forall s, c <> LocalCall (CallSetFen s)) ->
    (forall r, never_sets_fen (k r)) ->
    never_sets_fen (RunTool c k).

(** The board is [b0], or [b0] after one legal move of [side]. *)
Definition moved_at_most_once (side : string) (b0 b : Board) : Prop :=
  b = b0
  \/ exists mv,
       In mv (legal_moves b0) /\ side_name (turn b0) = side /\ b = push mv b0.

(** A yielded state whose transcript lies between [ms] and
    [ms ++ entries]. *)
Definition between (ms entries : list Message) (w : World) : Prop :=
  exists pre post, entries = List.app pre post /\ w_messages w = List.app ms pre.

End Trace.

(** More runs on the small engine. *)
Module FoolsMateRuns.
Import FoolsMate.

(** An answer chunk without a message, then more that is never read. *)
Definition empty_answer_run (_ : list BaseMessage) : AgentRun :=
  RunChunk (mkChunk (Some [mkStep "get_fen" (PStr "ok")]) (Some []))
    (RunTool (LocalCall (CallMakeMove "f2f3")) (fun _ => RunEnd)).

Definition empty_answer_agent : Agent :=
  mkAgent (local_only (create_base_tools (Some "white"))) empty_answer_run.

Definition line_agent : Agent :=
  mkAgent (local_only (create_base_tools (Some "white"))) line_run.

Definition lowercase_ollama : PlayerConfig := mkPlayer "qwen3" "ollama" "".

Definition no_env (_ : string) : string := "".

(** White's autoplay turn with [line_agent] from the initial position. *)
Definition line_turn : list World * World * (Exception + unit) :=
  Eval vm_compute in
    call_agent line_agent (autoplay_prompt "white" (fen P0)) (mkWorld P0 []).

(** A reset with White played by the agent of the line and Black by a
    human. *)
Definition reset_run : list World * World * (Exception + nat) :=
  Eval vm_compute in
    match start_or_reset_game line_model 3 None ollama human (Some 200) P3 with
    | Some run => run
    | None => ([], mkWorld P3 [], inr 0)
    end.

End FoolsMateRuns.

(** * Properties *)

(** ** Strings *)

Lemma append_assoc (a b c : string) : (a ++ b) ++ c = a ++ (b ++ c).
Proof.
  induction a as [|ch a IH]; simpl.
  - reflexivity.
  - now rewrite IH.
Qed.

Lemma append_empty_r (a : string) : a ++ "" = a.
Proof.
  induction a as [|ch a IH]; simpl; [reflexivity | now rewrite IH].
Qed.

Lemma occurs_in_self (x : string) : occurs_in x x.
Proof.
  exists "", "". simpl. now rewrite append_empty_r.
Qed.

Lemma occurs_in_prepend (x p s : string) : occurs_in x s -> occurs_in x (p ++ s).
Proof.
  intros (pre & post & ->). exists (p ++ pre), post.
  now rewrite append_assoc.
Qed.

Lemma occurs_in_append (x s q : string) : occurs_in x s -> occurs_in x (s ++ q).
Proof.
  intros (pre & post & ->). exists pre, (post ++ q).
  now rewrite !append_assoc.
Qed.

(** Every element of a joined list occurs in the joined string. *)
Lemma occurs_in_join (sep x : string) (l : list string) :
  In x l -> occurs_in x (join sep l).
Proof.
  unfold join. induction l as [|y l IH]; intros Hin.
  - destruct Hin.
  - destruct l as [|z l].
    + destruct Hin as [->|[]]. simpl. apply occurs_in_self.
    + change (String.concat sep (y :: z :: l))
        with (y ++ sep ++ String.concat sep (z :: l)).
      destruct Hin as [->|Hin].
      * apply occurs_in_append with (s := x). apply occurs_in_self.
      * apply occurs_in_prepend, occurs_in_prepend. now apply IH.
Qed.

(** ** The tool surface *)

Section ToolProperties.
Context {E : Engine}.

Lemma in_legal_moves_true (mv : Move) (b : Board) :
  In mv (legal_moves b) -> in_legal_moves mv b = true.
Proof.
  intros Hin. unfold in_legal_moves.
  destruct (in_dec Move_eq_dec mv (legal_moves b)); [reflexivity | contradiction].
Qed.

Lemma in_legal_moves_false (mv : Move) (b : Board) :
  ~ In mv (legal_moves b) -> in_legal_moves mv b = false.
Proof.
  intros Hin. unfold in_legal_moves.
  destruct (in_dec Move_eq_dec mv (legal_moves b)); [contradiction | reflexivity].
Qed.

Lemma winner_name_opposite (b : Board) :
  winner_name b = side_name (opposite (turn b)).
Proof.
  unfold winner_name. now destruct (turn b).
Qed.

(** The [if]/[elif] chain reads the board only, and picks the first rule
    of the priority list that holds. *)
Lemma move_status_first_match (b : Board) :
  move_status b
  = (inr (first_match (status_priority (opposite (turn b)) b) "ongoing"), b).
Proof.
  unfold move_status, bind, ask, ret, status_priority.
  cbn -[winner_name].
  destruct (is_checkmate b).
  - now rewrite winner_name_opposite.
  - destruct (is_stalemate b); [reflexivity|].
    destruct (is_insufficient_material b); [reflexivity|].
    destruct (can_claim_threefold_repetition b); [reflexivity|].
    destruct (can_claim_fifty_moves b); reflexivity.
Qed.

(** The reply to a move the restriction lets through is the one of
    [make_move_parsed], whenever that one does not raise. *)
Lemma make_move_reply_allowed (allowed_side : option string) (m : string)
    (b b' : Board) (r : MoveReply) :
  turn_allowed allowed_side b = true ->
  make_move_parsed m b = (inr r, b') ->
  make_move_reply allowed_side m b = (inr r, b').
Proof.
  intros Hturn Hparsed.
  unfold make_move_reply, try_except.
  destruct allowed_side as [side|]; simpl in Hturn.
  - unfold bind at 1, ask at 1. rewrite Hturn. simpl. now rewrite Hparsed.
  - now rewrite Hparsed.
Qed.

Lemma make_move_parsed_legal (m : string) (b : Board) (mv : Move) :
  from_uci m = inr mv ->
  In mv (legal_moves b) ->
  make_move_parsed m b
  = (inr (MoveApplied (fen (push mv b))
            (first_match
               (status_priority (opposite (turn (push mv b))) (push mv b))
               "ongoing")),
     push mv b).
Proof.
  intros Huci Hin.
  unfold make_move_parsed, bind, call, ask, do_push, ret.
  rewrite Huci, (in_legal_moves_true _ _ Hin).
  now rewrite move_status_first_match.
Qed.

Lemma make_move_parsed_illegal (m : string) (b : Board) (mv : Move) :
  from_uci m = inr mv ->
  ~ In mv (legal_moves b) ->
  make_move_parsed m b
  = (inr (IllegalMove m (map uci (firstn 10 (legal_moves b)))), b).
Proof.
  intros Huci Hin.
  unfold make_move_parsed, bind, call, ask, ret.
  now rewrite Huci, (in_legal_moves_false _ _ Hin).
Qed.

(** [make_move] is [make_move_reply] followed by the text of the reply. *)
Lemma make_move_text (allowed_side : option string) (m : string)
    (b b' : Board) (r : MoveReply) :
  make_move_reply allowed_side m b = (inr r, b') ->
  make_move allowed_side m b = (inr (reply_text r), b').
Proof.
  intros H. unfold make_move, bind, ret. now rewrite H.
Qed.

(** The handler returns a reply and leaves the board alone. *)
Lemma make_move_handler_returns (m : string) (e : Exception) (b : Board) :
  exists r, make_move_handler m e b = (inr r, b)
            /\ (r = InvalidUCIFormat m \/ r = EngineError (exc_msg e)).
Proof.
  unfold make_move_handler.
  destruct (contains "expected uci string" (lower (exc_msg e))
            || contains "invalid uci" (lower (exc_msg e)));
    eexists; split; try reflexivity; auto.
Qed.

(** [make_move_parsed] mutates the board only by the push of a legal
    move. *)
Lemma make_move_parsed_board (m : string) (b : Board) :
  snd (make_move_parsed m b) = b
  \/ exists mv, from_uci m = inr mv /\ In mv (legal_moves b)
                /\ snd (make_move_parsed m b) = push mv b.
Proof.
  destruct (from_uci m) as [e|mv] eqn:Huci.
  - left. unfold make_move_parsed, bind, call. now rewrite Huci.
  - destruct (in_dec Move_eq_dec mv (legal_moves b)) as [Hin|Hin].
    + right. exists mv. repeat split; auto.
      now rewrite (make_move_parsed_legal _ _ _ Huci Hin).
    + left. now rewrite (make_move_parsed_illegal _ _ _ Huci Hin).
Qed.

(** C1. A move string that parses as a UCI move and is in the legal-move
    set of the position, on a tool surface whose side restriction (if any)
    is the side to move, is applied: the board becomes the position after
    the move, and [make_move] returns the new FEN followed by
    [" | status="] and the status tag, which is the reply of the success
    branch and not one of the rejections. *)
Theorem make_move_applies_legal_move (allowed_side : option string)
    (m : string) (b : Board) (mv : Move) :
  from_uci m = inr mv ->
  In mv (legal_moves b) ->
  turn_allowed allowed_side b = true ->
  let b' := push mv b in
  let status := first_match (status_priority (opposite (turn b')) b') "ongoing" in
  make_move_reply allowed_side m b = (inr (MoveApplied (fen b') status), b')
  /\ make_move allowed_side m b = (inr (fen b' ++ " | status=" ++ status), b').
Proof.
  intros Huci Hin Hturn b' status.
  assert (Hreply : make_move_reply allowed_side m b
                   = (inr (MoveApplied (fen b') status), b')).
  { apply make_move_reply_allowed; [assumption|].
    now apply make_move_parsed_legal. }
  split; [exact Hreply|].
  now rewrite (make_move_text _ _ _ _ _ Hreply).
Qed.

(** C2, amended. A well-formed move string that is not in the legal-move
    set never changes the board. When the side restriction (if any) is the
    side to move, the reply is the illegal-move rejection, which lists the
    first legal moves, ten at most, each of them occurring in the returned
    text; so the text names a legal move whenever the position has one. *)
Theorem make_move_rejects_illegal_move (allowed_side : option string)
    (m : string) (b : Board) (mv : Move) :
  from_uci m = inr mv ->
  ~ In mv (legal_moves b) ->
  snd (make_move allowed_side m b) = b
  /\ (turn_allowed allowed_side b = true ->
      let examples := map uci (firstn 10 (legal_moves b)) in
      let text := reply_text (IllegalMove m examples) in
      make_move_reply allowed_side m b = (inr (IllegalMove m examples), b)
      /\ make_move allowed_side m b = (inr text, b)
      /\ List.length examples <= 10
      /\ (forall x, In x examples -> occurs_in x text)
      /\ (legal_moves b <> [] ->
          exists mv', In mv' (legal_moves b) /\ occurs_in (uci mv') text)).
Proof.
  intros Huci Hnot.
  pose proof (make_move_parsed_illegal _ _ _ Huci Hnot) as Hparsed.
  assert (Hallowed : turn_allowed allowed_side b = true ->
                     make_move_reply allowed_side m b
                     = (inr (IllegalMove m (map uci (firstn 10 (legal_moves b)))), b)).
  { intros Hturn. now apply make_move_reply_allowed. }
  split.
  - destruct (turn_allowed allowed_side b) eqn:Hturn.
    + now rewrite (make_move_text _ _ _ _ _ (Hallowed eq_refl)).
    + destruct allowed_side as [side|]; [|discriminate].
      simpl in Hturn.
      unfold make_move, make_move_reply, try_except, bind, ask, ret.
      now rewrite Hturn.
  - intros Hturn examples text.
    assert (Hocc : forall x, In x examples -> occurs_in x text).
    { intros x Hx. unfold text, reply_text.
      do 3 apply occurs_in_prepend. now apply occurs_in_join. }
    split; [now apply Hallowed|].
    split; [now rewrite (make_move_text _ _ _ _ _ (Hallowed Hturn))|].
    split.
    { unfold examples. rewrite length_map. apply firstn_le_length. }
    split; [exact Hocc|].
    intros Hsome. destruct (legal_moves b) as [|mv' rest] eqn:Hlegal;
      [contradiction|].
    exists mv'. split; [now left|].
    apply Hocc. unfold examples. simpl. now left.
Qed.

(** C3. On a tool surface restricted to a side, a [make_move] made while
    the other side is to move answers "not your turn" and leaves the board
    as it was, whatever the move string is: the test comes before the
    string is parsed. *)
Theorem make_move_not_your_turn (side m : string) (b : Board) :
  side_name (turn b) <> side ->
  make_move_reply (Some side) m b = (inr (NotYourTurn (side_name (turn b))), b)
  /\ make_move (Some side) m b
     = (inr ("Not your turn: it's " ++ side_name (turn b)
               ++ " to move. Wait for opponent."), b).
Proof.
  intros Hneq. apply String.eqb_neq in Hneq.
  assert (Hreply : make_move_reply (Some side) m b
                   = (inr (NotYourTurn (side_name (turn b))), b)).
  { unfold make_move_reply, try_except, bind, ask, ret. now rewrite Hneq. }
  split; [exact Hreply|].
  now rewrite (make_move_text _ _ _ _ _ Hreply).
Qed.


(** [set_fen] called with what [get_fen] returns is the engine's [set_fen]
    on the board's own FEN, followed by the engine's [fen]. *)
Lemma set_fen_of_get_fen_unfolded (b : Board) :
  bind get_fen set_fen b
  = match board_set_fen (fen b) b with
    | inr b' => (inr (fen b'), b')
    | inl e => if is_ValueError e then (inr (exc_msg e), b) else (inl e, b)
    end.
Proof.
  cbv [bind get_fen set_fen try_except do_set_fen ask ret].
  now destruct (board_set_fen (fen b) b).
Qed.


(** C9. [convert_move_to_uci] never changes the board, whatever the string
    and the position. It returns the UCI translation when the engine parses
    the string, and a failure message when the engine raises a ValueError,
    the one kind of error the engine's parser has; so under that contract
    it always returns a text. *)
Theorem convert_move_to_uci_leaves_board (algebraic_move : string) (b : Board) :
  snd (convert_move_to_uci algebraic_move b) = b
  /\ fst (convert_move_to_uci algebraic_move b)
     = match parse_san b algebraic_move with
       | inr move => inr ("UCI format: " ++ uci move)
       | inl e =>
           if is_ValueError e
           then inr ("Could not convert '" ++ algebraic_move
                       ++ "' to UCI format. Error: " ++ exc_msg e)
           else inl e
       end
  /\ ((forall e, parse_san b algebraic_move = inl e -> is_ValueError e = true) ->
      exists text, convert_move_to_uci algebraic_move b = (inr text, b)).
Proof.
  cbv [convert_move_to_uci try_except bind ask call ret].
  destruct (parse_san b algebraic_move) as [e|move] eqn:Hparse.
  - destruct (is_ValueError e) eqn:Hclass.
    + repeat split; try reflexivity. intros _. eexists. reflexivity.
    + repeat split; try reflexivity. intros Hcontract.
      rewrite (Hcontract e eq_refl) in Hclass. discriminate.
  - repeat split; try reflexivity. intros _. eexists. reflexivity.
Qed.

(** Without a side restriction [make_move] never answers "not your turn". *)
Lemma make_move_unrestricted_reply (m : string) (b : Board) (current : string) :
  fst (make_move_reply None m b) <> inr (NotYourTurn current).
Proof.
  unfold make_move_reply, try_except.
  destruct (from_uci m) as [e|mv] eqn:Huci.
  - unfold make_move_parsed, bind, call. rewrite Huci.
    destruct (make_move_handler_returns m e b) as (r & -> & [-> | ->]);
      simpl; discriminate.
  - destruct (in_dec Move_eq_dec mv (legal_moves b)) as [Hin|Hin].
    + rewrite (make_move_parsed_legal _ _ _ Huci Hin). simpl. discriminate.
    + rewrite (make_move_parsed_illegal _ _ _ Huci Hin). simpl. discriminate.
Qed.

End ToolProperties.

(** ** The agent bridge *)

(** C8, amended. The content of a final answer is read by the shape of the
    message content: plain text is returned as it is; a sequence stands for
    its first element; a keyed answer, alone or as that first element,
    stands for its text field; and when what comes out is empty (no text
    field, empty text, empty sequence, no content) the result is the
    placeholder "Calling tool(s)". *)
Theorem chunk_message_content_by_shape (tools : option (list ToolStep))
    (content : PyVal) (rest : list PyVal) :
  _get_chunk_message_content (mkChunk tools (Some (content :: rest)))
  = inr (extract_table content).
Proof.
  unfold _get_chunk_message_content. simpl. f_equal.
  unfold extract_content, extract_table, text_field_or_placeholder, placeholder.
  destruct content as [|s|l|d]; simpl.
  - reflexivity.
  - now destruct (s =? "").
  - destruct l as [|x l]; [reflexivity|].
    destruct x as [|s|l'|d]; simpl; try reflexivity.
    destruct (dict_get d "text") as [v|]; reflexivity.
  - destruct (dict_get d "text") as [v|]; reflexivity.
Qed.

Section BridgeProperties.
Context {E : Engine}.

(** When the stream itself raises, the loop over the stream raises that
    exception, with the same snapshots and the same world. *)
Lemma stream_loop_raises (tools : AgentCall -> Tool string) (run : AgentRun) :
  forall (w : World) (ys : list World) (w' : World) (e : Exception),
    stream_raises tools run w = Some (ys, w', e) ->
    stream_loop tools run w = (ys, w', inl e).
Proof.
  induction run as [|e0|chunk k IH|c k IH]; intros w ys w' e Hraises; simpl in *.
  - discriminate.
  - now inversion Hraises.
  - unfold gbind. destruct (handle_chunk chunk w) as [[ys1 w1] [e1|u]].
    + discriminate.
    + destruct (stream_raises tools k w1) as [[[ys2 w2] e2]|] eqn:Hk;
        [|discriminate].
      inversion Hraises; subst. now rewrite (IH _ _ _ _ Hk).
  - unfold gbind, run_tool.
    destruct (tools c (w_board w)) as [r b'].
    rewrite (IH _ _ _ _ _ Hraises). reflexivity.
Qed.

(** The bridge never raises: whatever the agent does, [call_agent]
    returns. *)
Lemma call_agent_returns (agent : Agent) (prompt : BaseMessage) (w : World) :
  exists ys w', call_agent agent prompt w = (ys, w', inr tt).
Proof.
  unfold call_agent, gtry.
  match goal with |- context [match ?body w with _ => _ end] =>
    destruct (body w) as [[ys w'] [e|[]]] end.
  - cbv [gbind append_message yield_messages]. eauto.
  - eauto.
Qed.

(** C6. If the agent's event stream raises an exception while the bridge
    consumes it, the bridge appends one assistant entry [Error: <details>]
    to the transcript as it stood, yields the transcript once more, and
    ends by returning: the exception does not reach the caller. *)
Theorem call_agent_catches_stream_exception (agent : Agent)
    (prompt : BaseMessage) (w : World) (ys : list World) (w' : World)
    (e : Exception) :
  stream_raises (agent_tools agent)
    (agent_astream agent
       (List.app (map _convert_to_langchain_message (removelast (w_messages w)))
          [prompt])) w
  = Some (ys, w', e) ->
  call_agent agent prompt w
  = (List.app ys [with_error e w'], with_error e w', inr tt)
  /\ w_messages (with_error e w')
     = List.app (w_messages w')
         [MChat "assistant" (PStr ("Error: " ++ exc_msg e)) None]
  /\ w_board (with_error e w') = w_board w'.
Proof.
  intros Hraises. split; [|split; reflexivity].
  unfold call_agent, gtry. unfold gbind at 1, get_messages.
  rewrite (stream_loop_raises _ _ _ _ _ _ Hraises). simpl.
  reflexivity.
Qed.

End BridgeProperties.

(** ** The turn orchestrator *)

Section OrchestratorProperties.
Context {E : Engine}.
Variable init_chat_model :
  string -> string * string -> Exception + (list BaseMessage -> AgentRun).
Variable mcp_tools : string -> string -> Exception + string.
Variables white black : PlayerConfig.

(** One iteration of the loop. *)
Lemma autoplay_loop_unfold (fuel : nat) (max_moves : option nat) (moves : nat)
    (w : World) :
  autoplay_loop init_chat_model (S fuel) white black max_moves moves w
  = if is_game_over (w_board w) then Some ([], w, inr moves)
    else if ceiling_reached max_moves moves then Some ([], w, inr moves)
    else if human_to_move (side_name (turn (w_board w))) white black
    then Some ([], w, inr moves)
    else
      match autoplay_agent init_chat_model white black
              (side_name (turn (w_board w))) with
      | inl e => Some ([], w, inl e)
      | inr agent =>
          match call_agent agent
                  (autoplay_prompt (side_name (turn (w_board w)))
                     (fen (w_board w))) w with
          | (ys, w', inl e) => Some (ys, w', inl e)
          | (ys, w', inr _) =>
              match autoplay_loop init_chat_model fuel white black max_moves
                      (S moves) w' with
              | None => None
              | Some (ys', w'', r) => Some (List.app ys ys', w'', r)
              end
          end
      end.
Proof. reflexivity. Qed.

(** When a stop condition holds at the head of the loop, the loop ends
    there. *)
Lemma autoplay_loop_stops (fuel : nat) (max_moves : option nat) (moves : nat)
    (w : World) :
  stop_now white black max_moves moves w = true ->
  autoplay_loop init_chat_model (S fuel) white black max_moves moves w
  = Some ([], w, inr moves).
Proof.
  unfold stop_now. intros Hstop. rewrite autoplay_loop_unfold.
  destruct (is_game_over (w_board w)); [reflexivity|].
  destruct (ceiling_reached max_moves moves); [reflexivity|].
  simpl in Hstop. now rewrite Hstop.
Qed.

(** The loop ends normally only on a stop condition. *)
Lemma autoplay_loop_stops_only (fuel : nat) :
  forall (max_moves : option nat) (moves : nat) (w : World)
         (ys : list World) (w' : World) (moves' : nat),
    autoplay_loop init_chat_model fuel white black max_moves moves w
    = Some (ys, w', inr moves') ->
    stop_now white black max_moves moves' w' = true.
Proof.
  induction fuel as [|fuel IH]; intros max_moves moves w ys w' moves' Hloop;
    [discriminate|].
  rewrite autoplay_loop_unfold in Hloop. unfold stop_now.
  destruct (is_game_over (w_board w)) eqn:Hover.
  { inversion Hloop; subst. now rewrite Hover. }
  destruct (ceiling_reached max_moves moves) eqn:Hceil.
  { inversion Hloop; subst. rewrite Hceil. now rewrite orb_true_r. }
  destruct (human_to_move (side_name (turn (w_board w))) white black) eqn:Hhuman.
  { inversion Hloop; subst. rewrite Hhuman. now rewrite orb_true_r. }
  destruct (autoplay_agent init_chat_model white black
              (side_name (turn (w_board w)))) as [e|agent]; [discriminate|].
  destruct (call_agent agent _ w) as [[ys1 w1] [e|u]]; [discriminate|].
  destruct (autoplay_loop init_chat_model fuel white black max_moves (S moves) w1)
    as [[[ys2 w2] r]|] eqn:Hrest; [|discriminate].
  inversion Hloop; subst. exact (IH _ _ _ _ _ _ Hrest).
Qed.

(** A run that is complete with some fuel is the same with more. *)
Lemma autoplay_loop_more_fuel (fuel : nat) :
  forall (fuel' : nat) (max_moves : option nat) (moves : nat) (w : World)
         (run : Run nat),
    fuel <= fuel' ->
    autoplay_loop init_chat_model fuel white black max_moves moves w = Some run ->
    autoplay_loop init_chat_model fuel' white black max_moves moves w = Some run.
Proof.
  induction fuel as [|fuel IH]; intros fuel' max_moves moves w run Hle Hloop;
    [discriminate|].
  destruct fuel' as [|fuel']; [lia|].
  rewrite autoplay_loop_unfold in Hloop |- *.
  destruct (is_game_over (w_board w)); [assumption|].
  destruct (ceiling_reached max_moves moves); [assumption|].
  destruct (human_to_move (side_name (turn (w_board w))) white black);
    [assumption|].
  destruct (autoplay_agent init_chat_model white black
              (side_name (turn (w_board w)))) as [e|agent]; [assumption|].
  destruct (call_agent agent _ w) as [[ys1 w1] [e|u]]; [assumption|].
  destruct (autoplay_loop init_chat_model fuel white black max_moves (S moves) w1)
    as [run1|] eqn:Hrest; [|discriminate].
  rewrite (IH fuel' _ _ _ _ (proj2 (Nat.succ_le_mono _ _) Hle) Hrest).
  exact Hloop.
Qed.

(** With a ceiling, [(ceiling - moves) + 1] iterations are enough, and the
    loop ends on a stop condition unless an exception ended it. *)
Lemma autoplay_loop_bounded (k : nat) :
  forall (moves : nat) (w : World),
  exists ys w' r,
    autoplay_loop init_chat_model (S k) white black (Some (moves + k)) moves w
    = Some (ys, w', r)
    /\ match r with
       | inr moves' =>
           moves' <= moves + k
           /\ stop_now white black (Some (moves + k)) moves' w' = true
       | inl _ => True
       end.
Proof.
  induction k as [|k IH]; intros moves w.
  - destruct (stop_now white black (Some (moves + 0)) moves w) eqn:Hstop.
    + rewrite (autoplay_loop_stops _ _ _ _ Hstop).
      exists [], w, (inr moves). split; [reflexivity|]. split; [lia|assumption].
    + unfold stop_now, ceiling_reached in Hstop.
      replace (moves + 0 <=? moves)%nat with true in Hstop
        by (symmetry; apply Nat.leb_le; lia).
      rewrite orb_true_r in Hstop. discriminate.
  - destruct (stop_now white black (Some (moves + S k)) moves w) eqn:Hstop.
    + rewrite (autoplay_loop_stops _ _ _ _ Hstop).
      exists [], w, (inr moves). split; [reflexivity|]. split; [lia|assumption].
    + unfold stop_now in Hstop.
      apply orb_false_elim in Hstop as [Hstop Hhuman].
      apply orb_false_elim in Hstop as [Hover Hceil].
      rewrite autoplay_loop_unfold, Hover, Hceil, Hhuman.
      destruct (autoplay_agent init_chat_model white black
                  (side_name (turn (w_board w)))) as [e|agent].
      * exists [], w, (inl e). split; [reflexivity|exact I].
      * destruct (call_agent_returns agent
                    (autoplay_prompt (side_name (turn (w_board w)))
                       (fen (w_board w))) w) as (ys & w1 & ->).
        destruct (IH (S moves) w1) as (ys' & w' & r & Hloop & Hpost).
        replace (moves + S k) with (S moves + k) by lia.
        rewrite Hloop. exists (List.app ys ys'), w', r.
        split; [reflexivity|].
        destruct r as [e|moves']; [exact I|].
        destruct Hpost as [Hle Hstop']. split; [lia|assumption].
Qed.

(** C5, amended. An autoplay run that is given a move ceiling terminates:
    with ceiling [n] the loop is over within [n + 1] iterations, having
    played at most [n] plies, and it ends on one of the three stop
    conditions (game over, ceiling reached, a human to move) unless an
    exception ended it before; a stop condition that holds at the head of
    the loop ends it at once. The reset entry point runs with its ceiling
    of 200 and so terminates. The move-triggered entry point runs without
    a ceiling: when its run ends normally, the game is over or a human is
    to move. *)
Theorem autoplay_with_ceiling_terminates (n : nat) (w : World) :
  (exists ys w' r,
     _autoplay_until_human_or_gameover init_chat_model (S n) white black
       (Some n) w = Some (ys, w', r)
     /\ match r with
        | inr moves => moves <= n /\ stop_now white black (Some n) moves w' = true
        | inl _ => True
        end)
  /\ (forall fuel max_moves moves,
        stop_now white black max_moves moves w = true ->
        autoplay_loop init_chat_model (S fuel) white black max_moves moves w
        = Some ([], w, inr moves))
  /\ (forall messages b,
        exists r, forall fuel,
          201 <= fuel ->
          start_or_reset_game init_chat_model fuel messages white black
            default_max_moves b = Some r)
  /\ (forall fuel fen_ messages b ys w' moves,
        move_entrypoint init_chat_model fuel fen_ messages white black b
        = Some (ys, w', inr moves) ->
        is_game_over (w_board w')
        || human_to_move (side_name (turn (w_board w'))) white black = true).
Proof.
  split; [|split; [|split]].
  - destruct (autoplay_loop_bounded n 0 w) as (ys & w' & r & Hloop & Hpost).
    change (0 + n) with n in Hloop, Hpost.
    unfold _autoplay_until_human_or_gameover.
    rewrite Hloop. destruct r as [e|moves].
    + exists ys, w', (inl e). now split.
    + exists (List.app ys [w']), w', (inr moves). now split.
  - intros fuel max_moves moves. apply autoplay_loop_stops.
  - intros messages b. unfold start_or_reset_game, default_max_moves.
    match goal with |- context [_autoplay_until_human_or_gameover _ _ _ _ _ ?w0] =>
      destruct (autoplay_loop_bounded 200 0 w0) as (ys & w' & r & Hloop & _) end.
    change (0 + 200) with 200 in Hloop.
    unfold _autoplay_until_human_or_gameover.
    destruct r as [e|moves]; eexists; intros fuel Hfuel;
      rewrite (autoplay_loop_more_fuel _ fuel _ _ _ _ Hfuel Hloop); reflexivity.
  - intros fuel fen_ messages b ys w' moves Hrun.
    unfold move_entrypoint in Hrun.
    destruct (board_set_fen fen_ b) as [e|b']; [discriminate|].
    unfold _autoplay_until_human_or_gameover in Hrun.
    destruct (autoplay_loop init_chat_model fuel white black None 0
                (mkWorld b' messages)) as [[[ys1 w1] [e|moves1]]|] eqn:Hloop;
      try discriminate.
    inversion Hrun; subst.
    apply autoplay_loop_stops_only in Hloop.
    unfold stop_now in Hloop. simpl in Hloop.
    now rewrite orb_false_r in Hloop.
Qed.

(** C10. The agent of a chat turn is built on the unrestricted tool
    surface: its [make_move] is [make_move] without an allowed side, which
    never answers "not your turn" and applies a legal move of whichever
    side is to move; the agent of an autoplay turn gets the [make_move]
    restricted to its side. *)
Theorem chat_turn_make_move_is_unrestricted (b : Board) (agent : Agent)
    (m : string) :
  chat_agent init_chat_model mcp_tools white black b = Some (inr agent) ->
  agent_tools agent (LocalCall (CallMakeMove m)) = make_move None m
  /\ (forall b0 current,
        fst (make_move_reply None m b0) <> inr (NotYourTurn current))
  /\ (forall b0 mv,
        from_uci m = inr mv ->
        In mv (legal_moves b0) ->
        make_move None m b0
        = (inr (fen (push mv b0) ++ " | status="
                  ++ first_match
                       (status_priority (opposite (turn (push mv b0))) (push mv b0))
                       "ongoing"),
           push mv b0))
  /\ (forall side agent',
        autoplay_agent init_chat_model white black side = inr agent' ->
        agent_tools agent' (LocalCall (CallMakeMove m)) = make_move (Some side) m).
Proof.
  intros Hagent. repeat split.
  - unfold chat_agent, create_agent in Hagent.
    repeat match type of Hagent with
           | context [if ?c then _ else _] => destruct c
           | context [match _create_model ?i ?a ?p ?k with _ => _ end] =>
               destruct (_create_model i a p k)
           end; try discriminate;
      inversion Hagent; reflexivity.
  - intros b0 current. apply make_move_unrestricted_reply.
  - intros b0 mv Huci Hin.
    apply (make_move_text None m b0 (push mv b0)
             (MoveApplied (fen (push mv b0))
                (first_match
                   (status_priority (opposite (turn (push mv b0))) (push mv b0))
                   "ongoing"))).
    apply make_move_reply_allowed; [reflexivity|].
    now apply make_move_parsed_legal.
  - intros side agent' Hagent'.
    unfold autoplay_agent, create_agent in Hagent'.
    repeat match type of Hagent' with
           | context [if ?c then _ else _] => destruct c
           | context [match _create_model ?i ?a ?p ?k with _ => _ end] =>
               destruct (_create_model i a p k)
           end; try discriminate;
      inversion Hagent'; reflexivity.
Qed.

End OrchestratorProperties.

(** ** The tools, the bridge and the loop on the small engine *)

Import FoolsMate.

Lemma prefix_append (x post : string) : String.prefix x (x ++ post) = true.
Proof.
  induction x as [|a x IH]; simpl.
  - now destruct post.
  - destruct (ascii_dec a a); [exact IH | contradiction].
Qed.

Lemma contains_unfold (needle hay : string) :
  contains needle hay
  = if String.prefix needle hay then true
    else match hay with
         | EmptyString => false
         | String _ hay' => contains needle hay'
         end.
Proof. destruct hay; reflexivity. Qed.

(** [contains] finds every occurrence. *)
Lemma contains_complete (x s : string) : occurs_in x s -> contains x s = true.
Proof.
  intros (pre & post & ->). induction pre as [|a pre IH].
  - simpl. rewrite contains_unfold. now rewrite prefix_append.
  - rewrite contains_unfold.
    change (String a pre ++ x ++ post) with (String a (pre ++ x ++ post)).
    destruct (String.prefix x (String a (pre ++ x ++ post))); [reflexivity|].
    exact IH.
Qed.

Lemma make_move_applies_legal_move_witness :
  from_uci "f2f3" = inr "f2f3"
  /\ In "f2f3" (legal_moves P0)
  /\ make_move (Some "white") "f2f3" P0
     = (inr "rnbqkbnr/pppppppp/8/8/8/5P2/PPPPP1PP/RNBQKBNR b KQkq - 0 1 | status=ongoing",
        P1).
Proof.
  split; [reflexivity|]. split; [simpl; auto|].
  exact (proj2 (make_move_applies_legal_move (E := engine) (Some "white") "f2f3" P0 "f2f3"
                  eq_refl (or_introl eq_refl) eq_refl)).
Defined.

Lemma make_move_rejects_illegal_move_witness :
  from_uci "e2e5" = inr "e2e5"
  /\ ~ In "e2e5" (legal_moves P0)
  /\ make_move (Some "white") "e2e5" P0
     = (inr "Illegal move 'e2e5'. Use UCI format like these legal moves: f2f3", P0).
Proof.
  assert (Hnot : ~ In "e2e5" (legal_moves P0)).
  { simpl. intros [H|[]]. discriminate H. }
  split; [reflexivity|]. split; [exact Hnot|].
  destruct (make_move_rejects_illegal_move (E := engine) (Some "white") "e2e5" P0 "e2e5"
              eq_refl Hnot) as [_ Hrej].
  destruct (Hrej eq_refl) as (_ & Htext & _). exact Htext.
Defined.

(** C2 as stated fails on a surface restricted to the side that is not to
    move: the well-formed, illegal e2e5 sent to Black's surface in the
    initial position is answered "not your turn", a text that names none
    of the legal moves the position has. *)
Lemma make_move_out_of_turn_names_no_legal_move :
  from_uci "e2e5" = inr "e2e5"
  /\ ~ In "e2e5" (legal_moves P0)
  /\ legal_moves P0 <> []
  /\ make_move (Some "black") "e2e5" P0
     = (inr "Not your turn: it's white to move. Wait for opponent.", P0)
  /\ (forall mv, In mv (legal_moves P0) ->
      ~ occurs_in (uci mv)
          "Not your turn: it's white to move. Wait for opponent.").
Proof.
  split; [reflexivity|].
  split; [simpl; intros [H|[]]; discriminate H|].
  split; [discriminate|].
  split; [reflexivity|].
  intros mv [<-|[]] Hocc. apply contains_complete in Hocc.
  vm_compute in Hocc. discriminate Hocc.
Qed.

Lemma make_move_not_your_turn_witness :
  side_name (turn P0) <> "black"
  /\ make_move (Some "black") "e2e4" P0
     = (inr "Not your turn: it's white to move. Wait for opponent.", P0).
Proof.
  assert (Hneq : side_name (turn P0) <> "black") by (simpl; discriminate).
  split; [exact Hneq|].
  exact (proj2 (make_move_not_your_turn (E := engine) "black" "e2e4" P0 Hneq)).
Defined.


Lemma convert_move_to_uci_leaves_board_witness :
  exists text, convert_move_to_uci "Nf3" P3 = (inr text, P3).
Proof.
  apply (proj2 (proj2 (convert_move_to_uci_leaves_board (E := engine) "Nf3" P3))).
  intros e H. vm_compute in H. inversion H. reflexivity.
Defined.

Lemma call_agent_catches_stream_exception_witness :
  call_agent interrupted_agent (HumanMessage (PStr "Your move.")) (mkWorld P0 [go])
  = ([mkWorld P1 [go; tool_entry]; mkWorld P1 [go; tool_entry; stream_closed]],
     mkWorld P1 [go; tool_entry; stream_closed],
     inr tt).
Proof.
  exact (proj1 (call_agent_catches_stream_exception (E := engine) interrupted_agent
                  (HumanMessage (PStr "Your move.")) (mkWorld P0 [go])
                  [mkWorld P1 [go; tool_entry]] (mkWorld P1 [go; tool_entry])
                  (mkExc OtherException "stream closed") eq_refl)).
Defined.

(** C8 as stated fails on plain text, which is neither a sequence nor a
    keyed answer and yet is returned as it is, not replaced by the
    placeholder; and on a sequence that starts with a keyed answer, which
    gives that answer's text and not the first element. *)
Lemma plain_text_answer_is_kept :
  _get_chunk_message_content (mkChunk None (Some [PStr "I played f2f3."]))
  = inr (PStr "I played f2f3.")
  /\ extract_three_cases (PStr "I played f2f3.") = PStr "Calling tool(s)"
  /\ extract_content (PList [PDict [("type", PStr "text"); ("text", PStr "Hi")]])
     = PStr "Hi"
  /\ extract_three_cases (PList [PDict [("type", PStr "text"); ("text", PStr "Hi")]])
     = PDict [("type", PStr "text"); ("text", PStr "Hi")].
Proof. repeat split. Qed.

(** An agent that never moves keeps the loop going when no ceiling is
    set. *)
Lemma autoplay_loop_unreachable_agent (fuel : nat) :
  forall (moves : nat) (messages : list Message),
    autoplay_loop unreachable_model fuel human ollama None moves
      (mkWorld P1 messages) = None.
Proof.
  induction fuel as [|fuel IH]; intros moves messages; [reflexivity|].
  simpl. now rewrite IH.
Qed.

(** C5 as stated fails for the move-triggered entry point, which passes no
    ceiling: White is human and has played f2f3, Black is an agent whose
    model cannot be reached; every ply ends with an error entry and the
    board unchanged, so it stays Black's turn and no number of iterations
    completes the run. *)
Lemma move_entrypoint_runs_forever :
  ~ exists fuel run,
      move_entrypoint unreachable_model fuel (fen P1) [] human ollama P0 = Some run.
Proof.
  intros (fuel & run & Hrun).
  unfold move_entrypoint, _autoplay_until_human_or_gameover in Hrun.
  simpl in Hrun. rewrite autoplay_loop_unreachable_agent in Hrun.
  discriminate Hrun.
Qed.

Lemma autoplay_with_ceiling_terminates_witness :
  stop_now ollama human None 0 (mkWorld P1 []) = true
  /\ autoplay_loop unreachable_model 1 ollama human None 0 (mkWorld P1 [])
     = Some ([], mkWorld P1 [], inr 0).
Proof.
  split; [reflexivity|].
  exact (proj1 (proj2 (autoplay_with_ceiling_terminates (E := engine) unreachable_model
                         ollama human 2 (mkWorld P1 [])))
           0 None 0 eq_refl).
Defined.

Lemma chat_turn_make_move_is_unrestricted_witness :
  chat_agent line_model no_mcp ollama human P0
  = Some (inr (mkAgent (with_mcp no_mcp base_tools) line_run))
  /\ agent_tools (mkAgent (with_mcp no_mcp base_tools) line_run)
       (LocalCall (CallMakeMove "f2f3"))
     = make_move None "f2f3".
Proof.
  split; [reflexivity|].
  exact (proj1 (chat_turn_make_move_is_unrestricted (E := engine) line_model no_mcp ollama human
                  P0 (mkAgent (with_mcp no_mcp base_tools) line_run) "f2f3"
                  eq_refl)).
Defined.

(** * Further properties of the code *)

(** ** The tool surface as a whole *)

Section SurfaceProperties.
Context {E : Engine}.

(** When the restriction lets the side to move play, [make_move] is the
    guarded body alone. *)
Lemma make_move_reply_when_allowed (allowed_side : option string) (m : string)
    (b : Board) :
  turn_allowed allowed_side b = true ->
  make_move_reply allowed_side m b
  = try_except (make_move_parsed m) (fun _ => true) (make_move_handler m) b.
Proof.
  intros Hturn. unfold make_move_reply, try_except.
  destruct allowed_side as [side|]; [|reflexivity].
  simpl in Hturn. unfold bind at 1, ask at 1. now rewrite Hturn.
Qed.

(** Out of turn the reply is the refusal and the board stays. *)
Lemma make_move_reply_when_refused (allowed_side : option string) (m : string)
    (b : Board) :
  turn_allowed allowed_side b = false ->
  make_move_reply allowed_side m b
  = (inr (NotYourTurn (side_name (turn b))), b).
Proof.
  intros Hturn. destruct allowed_side as [side|]; [|discriminate].
  simpl in Hturn. unfold make_move_reply, try_except, bind, ask, ret.
  now rewrite Hturn.
Qed.

(** [make_move] always selects a reply. *)
Lemma make_move_reply_total (allowed_side : option string) (m : string)
    (b : Board) :
  exists r b', make_move_reply allowed_side m b = (inr r, b').
Proof.
  destruct (turn_allowed allowed_side b) eqn:Hturn.
  - rewrite (make_move_reply_when_allowed _ _ _ Hturn). unfold try_except.
    destruct (make_move_parsed m b) as [[e|r] b'].
    + destruct (make_move_handler_returns m e b') as (r & Hr & _). eauto.
    + eauto.
  - rewrite (make_move_reply_when_refused _ _ _ Hturn). eauto.
Qed.

(** The board [make_move] leaves. *)
Lemma make_move_board (allowed_side : option string) (m : string) (b : Board) :
  snd (make_move allowed_side m b) = b
  \/ exists mv,
       from_uci m = inr mv /\ In mv (legal_moves b)
       /\ turn_allowed allowed_side b = true
       /\ snd (make_move allowed_side m b) = push mv b.
Proof.
  destruct (turn_allowed allowed_side b) eqn:Hturn.
  - destruct (from_uci m) as [e|mv] eqn:Huci.
    + left. unfold make_move, bind.
      rewrite (make_move_reply_when_allowed _ _ _ Hturn). unfold try_except.
      unfold make_move_parsed at 1, bind at 1, call. rewrite Huci.
      destruct (make_move_handler_returns m e b) as (r & -> & _). reflexivity.
    + destruct (in_dec Move_eq_dec mv (legal_moves b)) as [Hin|Hin].
      * right. exists mv. repeat split; auto.
        now rewrite (make_move_text _ _ _ _ _
                       (make_move_reply_allowed _ _ _ _ _ Hturn
                          (make_move_parsed_legal _ _ _ Huci Hin))).
      * left.
        now rewrite (make_move_text _ _ _ _ _
                       (make_move_reply_allowed _ _ _ _ _ Hturn
                          (make_move_parsed_illegal _ _ _ Huci Hin))).
  - left.
    now rewrite (make_move_text _ _ _ _ _
                   (make_move_reply_when_refused _ _ _ Hturn)).
Qed.

(** X1. The only exceptions that leave the tool surface are the ones that
    are not a ValueError and come from the engine's [set_fen] or
    [parse_san]: [make_move], [get_fen], [get_legal_moves] and [get_status]
    never raise, whatever the engine does. *)
Theorem tool_surface_escaping_exceptions (allowed_side : option string)
    (c : ToolCall) (b : Board) :
  match fst (create_base_tools allowed_side c b) with
  | inr _ => True
  | inl e =>
      is_ValueError e = false
      /\ ((exists s, c = CallSetFen s /\ board_set_fen s b = inl e)
          \/ (exists s, c = CallConvertMoveToUci s /\ parse_san b s = inl e))
  end.
Proof.
  destruct c as [|s|m| |s|]; simpl; try exact I.
  - cbv [set_fen try_except bind do_set_fen ask ret].
    destruct (board_set_fen s b) as [e0|b'] eqn:Hset; simpl; [|exact I].
    destruct (is_ValueError e0) eqn:Hclass; simpl; [exact I|].
    split; [assumption|]. left. eauto.
  - unfold make_move, bind.
    destruct (make_move_reply_total allowed_side m b) as (r & b' & ->).
    exact I.
  - cbv [convert_move_to_uci try_except bind ask call ret].
    destruct (parse_san b s) as [e0|mv] eqn:Hparse; simpl; [|exact I].
    destruct (is_ValueError e0) eqn:Hclass; simpl; [exact I|].
    split; [assumption|]. right. eauto.
Qed.

(** X2. Whatever tool is called on whatever surface, the board afterwards
    is the board before, or the board after the push of a legal move that
    [make_move] was given at an allowed turn, or the board the engine's
    [set_fen] built. *)
Theorem tool_surface_board_effect (allowed_side : option string) (c : ToolCall)
    (b : Board) :
  snd (create_base_tools allowed_side c b) = b
  \/ (exists m mv,
        c = CallMakeMove m /\ from_uci m = inr mv /\ In mv (legal_moves b)
        /\ turn_allowed allowed_side b = true
        /\ snd (create_base_tools allowed_side c b) = push mv b)
  \/ (exists s b',
        c = CallSetFen s /\ board_set_fen s b = inr b'
        /\ snd (create_base_tools allowed_side c b) = b').
Proof.
  destruct c as [|s|m| |s|]; simpl.
  - now left.
  - cbv [set_fen try_except bind do_set_fen ask ret].
    destruct (board_set_fen s b) as [e0|b'] eqn:Hset; simpl.
    + left. now destruct (is_ValueError e0).
    + right. right. exists s, b'. auto.
  - destruct (make_move_board allowed_side m b) as [Hsame|(mv & H1 & H2 & H3 & H4)].
    + now left.
    + right. left. exists m, mv. auto.
  - now left.
  - left. cbv [convert_move_to_uci try_except bind ask call ret].
    destruct (parse_san b s) as [e0|mv]; simpl; [|reflexivity].
    now destruct (is_ValueError e0).
  - now left.
Qed.

(** X3. A move string the engine cannot parse is answered without touching
    the board (the turn being allowed): with the "Invalid UCI format" hint
    when the engine's message says "invalid uci" or "expected uci string"
    in any letter case, and with the engine's own message otherwise. *)
Theorem make_move_unparsable_move (allowed_side : option string) (m : string)
    (b : Board) (e : Exception) :
  from_uci m = inl e ->
  turn_allowed allowed_side b = true ->
  make_move allowed_side m b
  = (inr (if contains "expected uci string" (lower (exc_msg e))
             || contains "invalid uci" (lower (exc_msg e))
          then "Invalid UCI format '" ++ m
                 ++ "'. Use convert_move_to_uci tool if you have algebraic notation, or get_legal_moves to see valid UCI moves."
          else exc_msg e),
     b).
Proof.
  intros Huci Hturn. unfold make_move, bind.
  rewrite (make_move_reply_when_allowed _ _ _ Hturn). unfold try_except.
  unfold make_move_parsed at 1, bind at 1, call. rewrite Huci.
  unfold make_move_handler.
  destruct (contains "expected uci string" (lower (exc_msg e))
            || contains "invalid uci" (lower (exc_msg e))); reflexivity.
Qed.

(** X4. The side restriction does not guard [set_fen]: on a surface
    restricted to one side, while the other side is to move, [set_fen]
    with a FEN the engine accepts replaces the position, where [make_move]
    is refused. *)
Theorem set_fen_ignores_side_restriction (side s m : string) (b b' : Board) :
  side_name (turn b) <> side ->
  board_set_fen s b = inr b' ->
  create_base_tools (Some side) (CallSetFen s) b = (inr (fen b'), b')
  /\ snd (create_base_tools (Some side) (CallMakeMove m) b) = b.
Proof.
  intros Hneq Hset. split.
  - simpl. cbv [set_fen try_except bind do_set_fen ask ret]. now rewrite Hset.
  - simpl.
    assert (Hturn : turn_allowed (Some side) b = false)
      by (simpl; now apply String.eqb_neq).
    now rewrite (make_move_text _ _ _ _ _
                   (make_move_reply_when_refused _ m _ Hturn)).
Qed.

Lemma firstn_all_short {A} (n : nat) (l : list A) :
  List.length l <= n -> firstn n l = l.
Proof.
  revert n. induction l as [|x l IH]; intros n Hlen.
  - now destruct n.
  - destruct n as [|n]; simpl in *; [lia|]. f_equal. apply IH. lia.
Qed.

(** X5. [get_legal_moves] only reads the board. With at most 20 legal
    moves it lists them all; with more it lists the first 20 and then the
    number of the others. Every move it lists occurs in the text. *)
Theorem get_legal_moves_truncates (b : Board) :
  let legal := map uci (legal_moves b) in
  let text := "Legal moves (UCI format): "
              ++ (if (20 <? List.length legal)%nat
                  then join ", " (firstn 20 legal) ++ ", ... and "
                         ++ str_of_nat (List.length legal - 20) ++ " more"
                  else join ", " legal) in
  get_legal_moves b = (inr text, b)
  /\ (forall mv, In mv (firstn 20 (legal_moves b)) -> occurs_in (uci mv) text)
  /\ (List.length (legal_moves b) <= 20 ->
      forall mv, In mv (legal_moves b) -> occurs_in (uci mv) text).
Proof.
  intros legal text.
  assert (Hlisted : forall mv, In mv (firstn 20 (legal_moves b)) ->
                               occurs_in (uci mv) text).
  { intros mv Hin. unfold text. apply occurs_in_prepend.
    assert (Hx : In (uci mv) (firstn 20 legal)).
    { unfold legal. rewrite firstn_map. now apply in_map. }
    pose proof (Nat.ltb_spec 20 (List.length legal)) as Hcmp.
    destruct (20 <? List.length legal)%nat.
    - apply occurs_in_append. now apply occurs_in_join.
    - inversion Hcmp. rewrite firstn_all_short in Hx by lia.
      now apply occurs_in_join. }
  split; [|split].
  - unfold get_legal_moves, bind, ask, ret. fold legal. unfold text.
    pose proof (Nat.ltb_spec 20 (List.length legal)) as Hcmp.
    destruct (20 <? List.length legal)%nat; [reflexivity|].
    inversion Hcmp. now rewrite firstn_all_short by lia.
  - exact Hlisted.
  - intros Hshort mv Hin. apply Hlisted. now rewrite firstn_all_short.
Qed.

End SurfaceProperties.

(** ** Messages and chunks *)

(** X6. Converting a transcript entry for the model keeps who spoke: the
    result is an AI message exactly when the entry is one of the
    assistant. A message of the model library is passed on as it is; a
    chat message keeps its content and becomes a Human message for every
    role but "assistant", the system role included. *)
Theorem convert_keeps_role (message : Message) :
  (lc_kind (_convert_to_langchain_message message) = AI
   <-> _is_ai_message message = true)
  /\ (forall m, _convert_to_langchain_message (MBase m) = m)
  /\ (forall role content title,
        _convert_to_langchain_message (MChat role content title)
        = mkBase (if role =? "assistant" then AI else Human) content).
Proof.
  split; [|split].
  - destruct message as [m|role content title|d]; simpl.
    + destruct (lc_kind m); split; intros H; try reflexivity; discriminate H.
    + destruct (role =? "assistant"); simpl; split; intros H;
        try reflexivity; discriminate H.
    + destruct (dict_get d "role") as [[|r|l|d']|]; simpl;
        try (split; intros H; discriminate H).
      destruct (r =? "assistant"); simpl; split; intros H;
        try reflexivity; discriminate H.
  - reflexivity.
  - intros role content title. simpl. now destruct (role =? "assistant").
Qed.

(** X7. Whatever the chunk holds, the content read from a final answer is
    never empty: it is truthy, the placeholder standing in for anything
    that is not. *)
Theorem chunk_message_content_is_never_empty (chunk : Chunk) (content : PyVal) :
  _get_chunk_message_content chunk = inr content ->
  truthy content = true.
Proof.
  unfold _get_chunk_message_content.
  destruct (chunk_agent chunk) as [[|c rest]|]; try discriminate.
  intros H. inversion H; subst. unfold extract_content.
  match goal with |- truthy (if truthy ?v then _ else _) = true =>
    destruct (truthy v) eqn:Hv end; [exact Hv | reflexivity].
Qed.

(** ** The bridge, entry by entry *)

Section TraceProperties.
Context {E : Engine}.

Lemma snapshots_app (ms : list Message) (t1 t2 : list (Board * Message)) :
  snapshots ms (List.app t1 t2)
  = List.app (snapshots ms t1) (snapshots (List.app ms (map snd t1)) t2).
Proof.
  revert ms. induction t1 as [|[b m] t1 IH]; intros ms; simpl.
  - now rewrite app_nil_r.
  - rewrite IH. now rewrite <- app_assoc.
Qed.

Lemma snapshots_length (ms : list Message) (tagged : list (Board * Message)) :
  List.length (snapshots ms tagged) = List.length tagged.
Proof.
  revert ms. induction tagged as [|[b m] tagged IH]; intros ms; simpl;
    [reflexivity | now rewrite IH].
Qed.

(** The snapshot number [i] shows the first [i + 1] entries appended. *)
Lemma snapshots_nth (tagged : list (Board * Message)) :
  forall (ms : list Message) (i : nat),
    i < List.length tagged ->
    exists b, nth_error (snapshots ms tagged) i
              = Some (mkWorld b (List.app ms (firstn (S i) (map snd tagged)))).
Proof.
  induction tagged as [|[b m] tagged IH]; intros ms i Hi; simpl in Hi; [lia|].
  destruct i as [|i].
  - exists b. reflexivity.
  - destruct (IH (List.app ms [m]) i) as (b' & Hnth); [lia|].
    exists b'. simpl. rewrite Hnth. now rewrite <- app_assoc.
Qed.

Lemma map_snd_pair (b : Board) (es : list Message) : map snd (map (pair b) es) = es.
Proof.
  induction es as [|m es IH]; simpl; [reflexivity | now rewrite IH].
Qed.

Lemma tool_steps_trace (steps : list ToolStep) :
  forall (b : Board) (ms : list Message),
    tool_steps steps (mkWorld b ms)
    = (snapshots ms (map (pair b) (map step_entry steps)),
       mkWorld b (List.app ms (map step_entry steps)), inr tt).
Proof.
  induction steps as [|step steps IH]; intros b ms.
  - simpl. unfold gret. now rewrite app_nil_r.
  - cbn [tool_steps map snapshots].
    cbv [gbind append_message yield_messages]. cbn [w_board w_messages].
    rewrite IH. unfold step_entry at 3. cbn [List.app].
    now rewrite <- app_assoc.
Qed.

Lemma handle_chunk_trace (chunk : Chunk) (b : Board) (ms : list Message) :
  handle_chunk chunk (mkWorld b ms)
  = (snapshots ms (map (pair b) (fst (chunk_entries chunk))),
     mkWorld b (List.app ms (fst (chunk_entries chunk))),
     snd (chunk_entries chunk)).
Proof.
  unfold handle_chunk, chunk_entries, gbind.
  assert (Htools :
    (match chunk_tools chunk with
     | Some steps => tool_steps steps
     | None => gret tt
     end) (mkWorld b ms)
    = (snapshots ms (map (pair b)
                       match chunk_tools chunk with
                       | Some steps => map step_entry steps
                       | None => []
                       end),
       mkWorld b (List.app ms match chunk_tools chunk with
                              | Some steps => map step_entry steps
                              | None => []
                              end), inr tt)).
  { destruct (chunk_tools chunk) as [steps|].
    - apply tool_steps_trace.
    - unfold gret. simpl. now rewrite app_nil_r. }
  rewrite Htools. clear Htools.
  destruct (chunk_agent chunk) as [answers|].
  - destruct (_get_chunk_message_content chunk) as [e|content]; simpl.
    + unfold graise. now rewrite app_nil_r.
    + cbv [append_message yield_messages]. cbn [w_board w_messages].
      rewrite map_app, snapshots_app, map_snd_pair. simpl.
      now rewrite app_assoc.
  - unfold gret. simpl. now rewrite app_nil_r.
Qed.

(** The loop over the stream does what its trace says, on top of any
    transcript. *)
Lemma stream_loop_trace (tools : AgentCall -> Tool string) (run : AgentRun) :
  forall (b : Board) (ms : list Message),
    stream_loop tools run (mkWorld b ms)
    = (snapshots ms (fst (fst (stream_trace tools run b))),
       mkWorld (snd (fst (stream_trace tools run b)))
         (List.app ms (map snd (fst (fst (stream_trace tools run b))))),
       snd (stream_trace tools run b)).
Proof.
  induction run as [|e|chunk k IH|c k IH]; intros b ms.
  - simpl. unfold gret. now rewrite app_nil_r.
  - simpl. unfold graise. now rewrite app_nil_r.
  - cbn [stream_loop stream_trace]. unfold gbind.
    rewrite handle_chunk_trace.
    destruct (chunk_entries chunk) as [es [e|u]]; cbn [fst snd].
    + now rewrite map_snd_pair.
    + rewrite IH.
      destruct (stream_trace tools k b) as [[tagged b'] r]; cbn [fst snd].
      rewrite snapshots_app, map_app, !map_snd_pair. now rewrite app_assoc.
  - cbn [stream_loop stream_trace]. unfold gbind, run_tool.
    cbn [w_board w_messages].
    destruct (tools c b) as [res b1]. rewrite IH.
    destruct (stream_trace tools (k res) b1) as [[tagged b'] r]. reflexivity.
Qed.

(** A call of the bridge does what its trace says; it returns. *)
Lemma call_agent_trace (agent : Agent) (prompt : BaseMessage) (b : Board)
    (ms : list Message) :
  call_agent agent prompt (mkWorld b ms)
  = (snapshots ms (fst (call_trace agent prompt (removelast ms) b)),
     mkWorld (snd (call_trace agent prompt (removelast ms) b))
       (List.app ms (map snd (fst (call_trace agent prompt (removelast ms) b)))),
     inr tt).
Proof.
  unfold call_agent, gtry, call_trace. unfold gbind at 1, get_messages.
  cbn [w_messages]. rewrite stream_loop_trace.
  destruct (stream_trace (agent_tools agent)
              (agent_astream agent
                 (List.app (map _convert_to_langchain_message (removelast ms))
                    [prompt])) b) as [[tagged b'] [e|[]]]; cbn [fst snd].
  - cbv [gbind append_message yield_messages]. cbn [w_board w_messages].
    rewrite snapshots_app, map_app. simpl. now rewrite <- app_assoc.
  - reflexivity.
Qed.

Lemma chunk_entries_assistant (chunk : Chunk) :
  Forall (fun m => is_assistant_entry m = true) (fst (chunk_entries chunk)).
Proof.
  unfold chunk_entries.
  assert (Htools : Forall (fun m => is_assistant_entry m = true)
                     match chunk_tools chunk with
                     | Some steps => map step_entry steps
                     | None => []
                     end).
  { destruct (chunk_tools chunk) as [steps|]; [|constructor].
    induction steps; simpl; constructor; auto. }
  destruct (chunk_agent chunk) as [answers|]; [|exact Htools].
  destruct (_get_chunk_message_content chunk) as [e|content]; [exact Htools|].
  simpl. apply Forall_app. split; [exact Htools|]. now constructor.
Qed.

Lemma stream_trace_assistant (tools : AgentCall -> Tool string) (run : AgentRun) :
  forall b : Board,
    Forall (fun m => is_assistant_entry m = true)
      (map snd (fst (fst (stream_trace tools run b)))).
Proof.
  induction run as [|e|chunk k IH|c k IH]; intros b; simpl;
    try constructor.
  - pose proof (chunk_entries_assistant chunk) as Hchunk.
    destruct (chunk_entries chunk) as [es [e|u]]; cbn [fst snd] in *.
    + now rewrite map_snd_pair.
    + specialize (IH b).
      destruct (stream_trace tools k b) as [[tagged b'] r]; cbn [fst snd] in *.
      rewrite map_app, map_snd_pair. apply Forall_app. now split.
  - destruct (tools c b) as [res b1]. apply IH.
Qed.

Lemma call_trace_assistant (agent : Agent) (prompt : BaseMessage)
    (given : list Message) (b : Board) :
  Forall (fun m => is_assistant_entry m = true)
    (map snd (fst (call_trace agent prompt given b))).
Proof.
  unfold call_trace.
  pose proof (stream_trace_assistant (agent_tools agent)
                (agent_astream agent
                   (List.app (map _convert_to_langchain_message given) [prompt]))
                b) as Htrace.
  destruct (stream_trace _ _ b) as [[tagged b'] [e|u]]; cbn [fst snd] in *.
  - rewrite map_app. apply Forall_app. split; [exact Htrace|]. now constructor.
  - exact Htrace.
Qed.

End TraceProperties.

Section BridgeRunProperties.
Context {E : Engine}.

(** X8. An answer chunk that carries no message ends the turn: the bridge
    appends the entries of the chunk's tool messages, then one entry
    [Error: list index out of range], yields after each, and returns;
    whatever the stream had after that chunk is never run, so the board
    stays as it was. *)
Theorem empty_answer_chunk_ends_the_turn (agent : Agent) (prompt : BaseMessage)
    (b : Board) (ms : list Message) (steps : option (list ToolStep))
    (k : AgentRun) :
  agent_astream agent
    (List.app (map _convert_to_langchain_message (removelast ms)) [prompt])
  = RunChunk (mkChunk steps (Some [])) k ->
  let entries :=
    List.app (match steps with
              | Some l => map step_entry l
              | None => []
              end)
      [error_entry (mkExc IndexError "list index out of range")] in
  call_agent agent prompt (mkWorld b ms)
  = (snapshots ms (map (pair b) entries), mkWorld b (List.app ms entries), inr tt).
Proof.
  intros Hrun entries. rewrite call_agent_trace. unfold call_trace.
  rewrite Hrun. cbn [stream_trace]. unfold chunk_entries. simpl.
  unfold entries. now rewrite !map_app, map_snd_pair.
Qed.

(** X9. A call of the bridge returns and never raises. It only appends to
    the transcript, every entry it appends is an assistant chat message,
    and it yields once after each: the yield number [i] shows the
    transcript with the first [i + 1] new entries. *)
Theorem call_agent_appends_and_yields (agent : Agent) (prompt : BaseMessage)
    (w : World) :
  exists entries ys w',
    call_agent agent prompt w = (ys, w', inr tt)
    /\ w_messages w' = List.app (w_messages w) entries
    /\ Forall (fun m => is_assistant_entry m = true) entries
    /\ List.length ys = List.length entries
    /\ (forall i, i < List.length entries ->
          exists b, nth_error ys i
                    = Some (mkWorld b (List.app (w_messages w)
                                         (firstn (S i) entries)))).
Proof.
  destruct w as [b ms].
  exists (map snd (fst (call_trace agent prompt (removelast ms) b))).
  eexists. eexists. split; [apply call_agent_trace|].
  cbn [w_messages]. split; [reflexivity|].
  split; [apply call_trace_assistant|].
  split; [now rewrite snapshots_length, length_map|].
  intros i Hi. rewrite length_map in Hi. now apply snapshots_nth.
Qed.

(** X10. The agent is given the transcript without its last entry, then
    the prompt: two transcripts that differ in the last entry only lead to
    the same new entries, the same boards at each yield and the same final
    board. *)
Theorem call_agent_ignores_last_entry (agent : Agent) (prompt : BaseMessage)
    (b : Board) (ms : list Message) (x y : Message) :
  exists tagged b',
    call_agent agent prompt (mkWorld b (List.app ms [x]))
    = (snapshots (List.app ms [x]) tagged,
       mkWorld b' (List.app (List.app ms [x]) (map snd tagged)), inr tt)
    /\ call_agent agent prompt (mkWorld b (List.app ms [y]))
       = (snapshots (List.app ms [y]) tagged,
          mkWorld b' (List.app (List.app ms [y]) (map snd tagged)), inr tt).
Proof.
  exists (fst (call_trace agent prompt ms b)), (snd (call_trace agent prompt ms b)).
  split; rewrite call_agent_trace, removelast_last; reflexivity.
Qed.

End BridgeRunProperties.

(** ** Providers, entry points and the transcript *)

Section EntryPointProperties.
Context {E : Engine}.
Variable init_chat_model :
  string -> string * string -> Exception + (list BaseMessage -> AgentRun).
Variable mcp_tools : string -> string -> Exception + string.
Variables white black : PlayerConfig.

(** X11. [create_agent] accepts exactly the five provider names, spelled
    with their capitals: for each of them it asks the model library for a
    model and builds the agent on the tools it was given, passing on what
    the library raises; any other name, "Human" and the lower-case
    spellings included, is refused with a ValueError. *)
Theorem create_agent_provider_support (name provider_ key : string)
    (tools : AgentCall -> Tool string) :
  (In provider_ ["Anthropic"; "Mistral"; "OpenAI"; "Gemini"; "Ollama"] ->
   exists id kw,
     create_agent init_chat_model name provider_ key tools
     = match init_chat_model id kw with
       | inl e => inl e
       | inr model => inr (mkAgent tools model)
       end)
  /\ (~ In provider_ ["Anthropic"; "Mistral"; "OpenAI"; "Gemini"; "Ollama"] ->
      create_agent init_chat_model name provider_ key tools
      = inl (mkExc ValueError ("Unsupported model provider: " ++ provider_))).
Proof.
  unfold create_agent, _create_model. split.
  - intros [<-|[<-|[<-|[<-|[<-|[]]]]]]; simpl; eauto.
  - intros Hnot.
    repeat match goal with
           | |- context [if ?p =? ?q then _ else _] =>
               destruct (String.eqb_spec p q) as [->|_];
               [exfalso; apply Hnot; simpl; auto 10|]
           end.
    reflexivity.
Qed.

(** X12. A chat message sent while the side to move is played by a human
    gets the fixed answer "No AI configured for the side to move.": the
    board is set from the FEN, the user's message and the answer are
    appended, each followed by a yield, and no agent is built. *)
Theorem chat_at_a_human_turn (fen_ prompt : string) (messages : list Message)
    (b b' : Board) :
  board_set_fen fen_ b = inr b' ->
  provider (match turn b' with WHITE => white | BLACK => black end) = "Human" ->
  let w1 := mkWorld b' (List.app messages [MChat "user" (PStr prompt) None]) in
  let w2 := mkWorld b'
              (List.app messages
                 [MChat "user" (PStr prompt) None;
                  MChat "assistant"
                    (PStr "No AI configured for the side to move.") None]) in
  chat_entrypoint init_chat_model mcp_tools fen_ prompt messages white black b
  = ([w1; w2], w2, inr tt).
Proof.
  intros Hset Hhuman w1 w2. unfold chat_entrypoint. rewrite Hset.
  assert (Hnone : chat_agent init_chat_model mcp_tools white black b' = None).
  { unfold chat_agent. destruct (turn b'); simpl; now rewrite Hhuman. }
  rewrite Hnone. cbn [w_messages]. unfold w1, w2.
  now rewrite <- app_assoc.
Qed.

(** X13. When the agent's turn leaves the game over or a human to move,
    autoplay stops after that one ply: it passes on the yields of the
    turn, yields the final state once more and returns with one move
    played. *)
Theorem autoplay_hands_back_after_one_ply (fuel : nat) (max_moves : option nat)
    (w w1 : World) (agent : Agent) (ys : list World) :
  stop_now white black max_moves 0 w = false ->
  autoplay_agent init_chat_model white black (side_name (turn (w_board w)))
  = inr agent ->
  call_agent agent
    (autoplay_prompt (side_name (turn (w_board w))) (fen (w_board w))) w
  = (ys, w1, inr tt) ->
  is_game_over (w_board w1)
  || human_to_move (side_name (turn (w_board w1))) white black = true ->
  _autoplay_until_human_or_gameover init_chat_model (S (S fuel)) white black
    max_moves w
  = Some (List.app ys [w1], w1, inr 1).
Proof.
  intros Hgo Hagent Hcall Hstop.
  unfold stop_now in Hgo.
  apply orb_false_elim in Hgo as [Hgo Hhuman].
  apply orb_false_elim in Hgo as [Hover Hceil].
  unfold _autoplay_until_human_or_gameover.
  rewrite autoplay_loop_unfold, Hover, Hceil, Hhuman, Hagent, Hcall.
  rewrite (autoplay_loop_stops init_chat_model white black fuel max_moves 1 w1).
  - now rewrite app_nil_r.
  - unfold stop_now.
    apply orb_true_iff in Hstop as [->| ->]; [reflexivity|].
    now rewrite orb_true_r.
Qed.

Lemma snapshots_between (tagged : list (Board * Message)) :
  forall ms : list Message,
    Forall (between ms (map snd tagged)) (snapshots ms tagged).
Proof.
  induction tagged as [|[b m] tagged IH]; intros ms; simpl; constructor.
  - exists [m], (map snd tagged). now split.
  - eapply Forall_impl; [|apply IH].
    intros y (pre & post & Hsplit & Hy). exists (m :: pre), post.
    split; [simpl; now rewrite Hsplit|].
    rewrite Hy. now rewrite <- app_assoc.
Qed.

(** The autoplay loop only appends assistant entries to the transcript,
    and every state it yields shows the transcript part of the way. *)
Lemma autoplay_loop_appends (fuel : nat) :
  forall (max_moves : option nat) (moves : nat) (w : World)
         (ys : list World) (w' : World) (r : Exception + nat),
    autoplay_loop init_chat_model fuel white black max_moves moves w
    = Some (ys, w', r) ->
    exists entries,
      w_messages w' = List.app (w_messages w) entries
      /\ Forall (fun m => is_assistant_entry m = true) entries
      /\ Forall (between (w_messages w) entries) ys.
Proof.
  induction fuel as [|fuel IH]; intros max_moves moves w ys w' r Hloop;
    [discriminate|].
  rewrite autoplay_loop_unfold in Hloop.
  assert (Hnone : forall x, Some (@nil World, w, x) = Some (ys, w', r) ->
            exists entries,
              w_messages w' = List.app (w_messages w) entries
              /\ Forall (fun m => is_assistant_entry m = true) entries
              /\ Forall (between (w_messages w) entries) ys).
  { intros x H. inversion H; subst. exists []. rewrite app_nil_r. auto. }
  destruct (is_game_over (w_board w)); [now apply (Hnone (inr moves))|].
  destruct (ceiling_reached max_moves moves); [now apply (Hnone (inr moves))|].
  destruct (human_to_move (side_name (turn (w_board w))) white black);
    [now apply (Hnone (inr moves))|].
  destruct (autoplay_agent init_chat_model white black
              (side_name (turn (w_board w)))) as [e|agent];
    [now apply (Hnone (inl e))|].
  clear Hnone. destruct w as [b ms]. rewrite call_agent_trace in Hloop.
  cbn [w_board w_messages] in *.
  set (tagged := fst (call_trace agent
                        (autoplay_prompt (side_name (turn b)) (fen b))
                        (removelast ms) b)) in *.
  match type of Hloop with
  | context [autoplay_loop _ fuel _ _ _ _ ?w1] => set (w1' := w1) in *
  end.
  destruct (autoplay_loop init_chat_model fuel white black max_moves (S moves) w1')
    as [[[ys2 w2] r2]|] eqn:Hrest; [|discriminate].
  inversion Hloop; subst. clear Hloop.
  destruct (IH _ _ _ _ _ _ Hrest) as (entries2 & Hmsgs & Hassist & Hys).
  unfold w1' in Hmsgs, Hys. cbn [w_messages] in Hmsgs, Hys.
  exists (List.app (map snd tagged) entries2).
  split; [now rewrite Hmsgs, app_assoc|].
  split.
  - apply Forall_app. split; [apply call_trace_assistant | exact Hassist].
  - apply Forall_app. split.
    + eapply Forall_impl; [|apply snapshots_between].
      intros y (pre & post & Hsplit & Hy). exists pre, (List.app post entries2).
      split; [now rewrite Hsplit, app_assoc | exact Hy].
    + eapply Forall_impl; [|exact Hys].
      intros y (pre & post & Hsplit & Hy).
      exists (List.app (map snd tagged) pre), post.
      split; [now rewrite Hsplit, app_assoc | now rewrite Hy, app_assoc].
Qed.

(** X14. A reset starts from the initial position: its first yield shows
    the initial board with the incoming transcript (or none) followed by
    the one system entry "New game started. White to move."; whatever the
    run adds after that entry is assistant entries only, and nothing
    before it is changed. *)
Theorem reset_starts_a_new_game (fuel : nat) (messages : option (list Message))
    (max_moves : option nat) (b : Board) (ys : list World) (w' : World)
    (r : Exception + nat) :
  start_or_reset_game init_chat_model fuel messages white black max_moves b
  = Some (ys, w', r) ->
  let started :=
    List.app (match messages with None => [] | Some l => l end)
      [MChat "system" (PStr "New game started. White to move.") None] in
  exists rest entries,
    ys = mkWorld initial_board started :: rest
    /\ w_messages w' = List.app started entries
    /\ Forall (fun m => is_assistant_entry m = true) entries
    /\ Forall (between started entries) rest.
Proof.
  intros Hrun started. unfold start_or_reset_game in Hrun.
  fold started in Hrun.
  unfold _autoplay_until_human_or_gameover in Hrun.
  destruct (autoplay_loop init_chat_model fuel white black max_moves 0
              (mkWorld initial_board started)) as [[[ys1 w1] r1]|] eqn:Hloop;
    [|discriminate].
  destruct (autoplay_loop_appends _ _ _ _ _ _ _ Hloop)
    as (entries & Hmsgs & Hassist & Hys).
  cbn [w_messages] in Hmsgs, Hys.
  destruct r1 as [e|moves]; inversion Hrun; subst; clear Hrun.
  - exists ys1, entries. auto.
  - exists (List.app ys1 [w']), entries. repeat split; auto.
    apply Forall_app. split; [exact Hys|]. constructor; [|constructor].
    exists entries, []. now rewrite app_nil_r.
Qed.

End EntryPointProperties.

(** ** The form defaults *)

Lemma lower_ascii_idempotent (c : ascii) : lower_ascii (lower_ascii c) = lower_ascii c.
Proof.
  destruct c as [[] [] [] [] [] [] [] []]; reflexivity.
Qed.

Lemma lower_idempotent (s : string) : lower (lower s) = lower s.
Proof.
  induction s as [|c s IH]; simpl; [reflexivity|].
  now rewrite lower_ascii_idempotent, IH.
Qed.

(** X15. The defaults of a provider are looked up without regard to letter
    case, and a provider that is "human" in any case, or has no entry in
    the table, gets empty defaults: the empty string for one field, the
    pair of empty strings for "both". *)
Theorem defaults_ignore_case (getenv : string -> string) (provider_ which : string) :
  _defaults_for getenv (lower provider_) which = _defaults_for getenv provider_ which
  /\ (lower provider_ = "human"
      \/ defaults_lookup (MODEL_DEFAULTS getenv) (lower provider_) = None ->
      _defaults_for getenv provider_ which
      = if which =? "both" then inr ("", "") else inl "").
Proof.
  split.
  - unfold _defaults_for. now rewrite lower_idempotent.
  - unfold _defaults_for. intros [-> | Hnone]; [reflexivity|].
    rewrite Hnone. now destruct (lower provider_ =? "human").
Qed.

(** ** An agent's turn on a restricted surface *)

Section RestrictedTurnProperties.
Context {E : Engine}.
Variable init_chat_model :
  string -> string * string -> Exception + (list BaseMessage -> AgentRun).
Variable mcp_tools : string -> string -> Exception + string.
Variables white black : PlayerConfig.

Lemma side_name_opposite (c : Color) : side_name (opposite c) <> side_name c.
Proof. destruct c; discriminate. Qed.

(** One tool call other than [set_fen] on a surface restricted to [side]
    keeps the board within one legal move of [side] from [b0]. *)
Lemma restricted_call_moves_at_most_once (side : string) (b0 b : Board)
    (c : AgentCall) :
  (forall b1 mv, In mv (legal_moves b1) -> turn (push mv b1) = opposite (turn b1)) ->
  (forall s, c <> LocalCall (CallSetFen s)) ->
  moved_at_most_once side b0 b ->
  moved_at_most_once side b0
    (snd (local_only (create_base_tools (Some side)) c b)).
Proof.
  intros Hflip Hnoset Hinv.
  destruct c as [t|name args]; [|exact Hinv].
  destruct t as [|s|m| |s|]; simpl; try exact Hinv.
  - now destruct (Hnoset s).
  - destruct (make_move_board (Some side) m b)
      as [->|(mv & _ & Hin & Hturn & ->)]; [exact Hinv|].
    simpl in Hturn. apply String.eqb_eq in Hturn.
    destruct Hinv as [->|(mv0 & Hin0 & Hside0 & ->)].
    + right. exists mv. auto.
    + exfalso. rewrite (Hflip _ _ Hin0) in Hturn.
      apply (side_name_opposite (turn b0)). congruence.
  - cbv [convert_move_to_uci try_except bind ask call ret].
    destruct (parse_san b s) as [e0|mv]; simpl; [|exact Hinv].
    now destruct (is_ValueError e0).
Qed.

Lemma restricted_run_moves_at_most_once (side : string) (b0 : Board)
    (run : AgentRun) :
  (forall b1 mv, In mv (legal_moves b1) -> turn (push mv b1) = opposite (turn b1)) ->
  never_sets_fen run ->
  forall b : Board,
    moved_at_most_once side b0 b ->
    moved_at_most_once side b0
      (snd (fst (stream_trace (local_only (create_base_tools (Some side))) run b))).
Proof.
  intros Hflip Hrun.
  induction Hrun as [|e|c k Hk IH|c k Hc Hk IH]; intros b Hinv;
    cbn [stream_trace].
  - exact Hinv.
  - exact Hinv.
  - destruct (chunk_entries c) as [es [e|u]]; [exact Hinv|].
    specialize (IH b Hinv).
    now destruct (stream_trace _ k b) as [[tagged b'] r].
  - pose proof (restricted_call_moves_at_most_once side b0 b c Hflip Hc Hinv)
      as Hstep.
    destruct (local_only (create_base_tools (Some side)) c b) as [res b1].
    now apply IH.
Qed.

(** X16. In one turn on a surface restricted to its side, an agent that
    does not call [set_fen] changes the board by at most one legal move,
    and only when its side is to move (the engine passing the turn at each
    push): once it has moved, every further [make_move] is refused. *)
Theorem restricted_turn_moves_at_most_once (side : string) (agent : Agent)
    (prompt : BaseMessage) (w : World) :
  agent_tools agent = local_only (create_base_tools (Some side)) ->
  (forall given, never_sets_fen (agent_astream agent given)) ->
  (forall b1 mv, In mv (legal_moves b1) -> turn (push mv b1) = opposite (turn b1)) ->
  let b' := w_board (snd (fst (call_agent agent prompt w))) in
  b' = w_board w
  \/ exists mv,
       In mv (legal_moves (w_board w))
       /\ side_name (turn (w_board w)) = side
       /\ b' = push mv (w_board w).
Proof.
  intros Htools Hrun Hflip. destruct w as [b ms].
  rewrite call_agent_trace. cbn [fst snd w_board].
  unfold call_trace. rewrite Htools.
  pose proof (restricted_run_moves_at_most_once side b
                (agent_astream agent
                   (List.app (map _convert_to_langchain_message (removelast ms))
                      [prompt]))
                Hflip (Hrun _) b (or_introl eq_refl)) as Hinv.
  destruct (stream_trace _ _ b) as [[tagged b'] [e|u]]; exact Hinv.
Qed.

(** X17. In a chat turn answered by an agent, the agent is given the
    transcript as it was before the user's message, then the prompt made
    of the user's text and the current FEN; the entry point yields the
    transcript with the user's entry first and then passes on every yield
    of the bridge. *)
Theorem chat_turn_runs_the_agent (fen_ prompt : string) (messages : list Message)
    (b b' : Board) (agent : Agent) :
  board_set_fen fen_ b = inr b' ->
  chat_agent init_chat_model mcp_tools white black b' = Some (inr agent) ->
  let user := MChat "user" (PStr prompt) None in
  let real_prompt :=
    HumanMessage (PStr (prompt ++ nl ++ "Current board state: " ++ fen b')) in
  let trace := call_trace agent real_prompt messages b' in
  chat_entrypoint init_chat_model mcp_tools fen_ prompt messages white black b
  = (mkWorld b' (List.app messages [user])
       :: snapshots (List.app messages [user]) (fst trace),
     mkWorld (snd trace)
       (List.app (List.app messages [user]) (map snd (fst trace))),
     inr tt).
Proof.
  intros Hset Hagent user real_prompt trace.
  unfold chat_entrypoint. rewrite Hset, Hagent.
  rewrite call_agent_trace, removelast_last. reflexivity.
Qed.

(** X18. A FEN the engine rejects makes the chat entry point and the
    move entry point raise at once: nothing is yielded, the user's message
    is not recorded and the board is not touched. *)
Theorem rejected_fen_raises_at_once (fuel : nat) (fen_ prompt : string)
    (messages : list Message) (b : Board) (e : Exception) :
  board_set_fen fen_ b = inl e ->
  chat_entrypoint init_chat_model mcp_tools fen_ prompt messages white black b
  = ([], mkWorld b messages, inl e)
  /\ move_entrypoint init_chat_model fuel fen_ messages white black b
     = Some ([], mkWorld b messages, inl e).
Proof.
  intros Hset. unfold chat_entrypoint, move_entrypoint. now rewrite Hset.
Qed.

End RestrictedTurnProperties.

(** ** On the small engine *)

Import FoolsMateRuns.

Lemma make_move_unparsable_move_witness :
  from_uci "e2" = inl (mkExc ValueError "expected uci string to be of length 4 or 5: 'e2'")
  /\ make_move (Some "white") "e2" P0
     = (inr "Invalid UCI format 'e2'. Use convert_move_to_uci tool if you have algebraic notation, or get_legal_moves to see valid UCI moves.",
        P0).
Proof.
  split; [reflexivity|].
  exact (make_move_unparsable_move (E := engine) (Some "white") "e2" P0
           (mkExc ValueError "expected uci string to be of length 4 or 5: 'e2'")
           eq_refl eq_refl).
Defined.

Lemma set_fen_ignores_side_restriction_witness :
  side_name (turn P0) <> "black"
  /\ create_base_tools (Some "black") (CallSetFen (fen P2)) P0 = (inr (fen P2), P2)
  /\ snd (create_base_tools (Some "black") (CallMakeMove "f2f3") P0) = P0.
Proof.
  assert (Hneq : side_name (turn P0) <> "black") by (simpl; discriminate).
  split; [exact Hneq|].
  exact (set_fen_ignores_side_restriction (E := engine) "black" (fen P2) "f2f3"
           P0 P2 Hneq eq_refl).
Defined.

Lemma get_legal_moves_truncates_witness :
  get_legal_moves P0 = (inr "Legal moves (UCI format): f2f3", P0)
  /\ occurs_in "f2f3" "Legal moves (UCI format): f2f3".
Proof.
  split.
  - exact (proj1 (get_legal_moves_truncates (E := engine) P0)).
  - apply (proj2 (proj2 (get_legal_moves_truncates (E := engine) P0))).
    + simpl. lia.
    + simpl. auto.
Defined.

Lemma chunk_message_content_is_never_empty_witness :
  truthy (PStr "Calling tool(s)") = true.
Proof.
  exact (chunk_message_content_is_never_empty
           (mkChunk None (Some [PDict [("type", PStr "tool_use")]]))
           (PStr "Calling tool(s)") eq_refl).
Defined.

Lemma empty_answer_chunk_ends_the_turn_witness :
  call_agent empty_answer_agent (HumanMessage (PStr "Your move.")) (mkWorld P0 [go])
  = ([mkWorld P0 [go; MChat "assistant" (PStr "ok") (Some "🛠️ Used tool get_fen")];
      mkWorld P0 [go; MChat "assistant" (PStr "ok") (Some "🛠️ Used tool get_fen");
                  MChat "assistant" (PStr "Error: list index out of range") None]],
     mkWorld P0 [go; MChat "assistant" (PStr "ok") (Some "🛠️ Used tool get_fen");
                 MChat "assistant" (PStr "Error: list index out of range") None],
     inr tt).
Proof.
  exact (empty_answer_chunk_ends_the_turn (E := engine) empty_answer_agent
           (HumanMessage (PStr "Your move.")) P0 [go]
           (Some [mkStep "get_fen" (PStr "ok")])
           (RunTool (LocalCall (CallMakeMove "f2f3")) (fun _ => RunEnd))
           eq_refl).
Defined.

Lemma create_agent_provider_support_witness :
  create_agent unreachable_model "qwen3" "ollama" ""
    (local_only (create_base_tools (Some "white")))
  = inl (mkExc ValueError "Unsupported model provider: ollama").
Proof.
  apply (proj2 (create_agent_provider_support (E := engine) unreachable_model
                  "qwen3" "ollama" ""
                  (local_only (create_base_tools (Some "white"))))).
  simpl. intros H.
  repeat match type of H with
         | _ \/ _ => destruct H as [H|H]
         end; try discriminate H; exact H.
Defined.

Lemma chat_at_a_human_turn_witness :
  chat_entrypoint unreachable_model no_mcp (fen P1) "What now?" [] ollama human P0
  = ([mkWorld P1 [MChat "user" (PStr "What now?") None];
      mkWorld P1 [MChat "user" (PStr "What now?") None;
                  MChat "assistant"
                    (PStr "No AI configured for the side to move.") None]],
     mkWorld P1 [MChat "user" (PStr "What now?") None;
                 MChat "assistant"
                   (PStr "No AI configured for the side to move.") None],
     inr tt).
Proof.
  exact (chat_at_a_human_turn (E := engine) unreachable_model no_mcp ollama human
           (fen P1) "What now?" [] P0 P1 eq_refl eq_refl).
Defined.

Lemma autoplay_hands_back_after_one_ply_witness :
  w_board (snd (fst line_turn)) = P1
  /\ _autoplay_until_human_or_gameover line_model 2 ollama human None
       (mkWorld P0 [])
     = Some (List.app (fst (fst line_turn)) [snd (fst line_turn)],
             snd (fst line_turn), inr 1).
Proof.
  split; [reflexivity|].
  exact (autoplay_hands_back_after_one_ply (E := engine) line_model ollama human
           0 None (mkWorld P0 []) (snd (fst line_turn)) line_agent
           (fst (fst line_turn)) eq_refl eq_refl eq_refl eq_refl).
Defined.

Lemma reset_starts_a_new_game_witness :
  start_or_reset_game line_model 3 None ollama human (Some 200) P3 = Some reset_run
  /\ exists rest entries,
       fst (fst reset_run)
       = mkWorld P0 [MChat "system" (PStr "New game started. White to move.") None]
           :: rest
       /\ w_messages (snd (fst reset_run))
          = List.app [MChat "system" (PStr "New game started. White to move.") None]
              entries
       /\ Forall (fun m => is_assistant_entry m = true) entries
       /\ Forall (between
                    [MChat "system" (PStr "New game started. White to move.") None]
                    entries) rest.
Proof.
  split; [reflexivity|].
  exact (reset_starts_a_new_game (E := engine) line_model ollama human 3 None
           (Some 200) P3 (fst (fst reset_run)) (snd (fst reset_run)) (snd reset_run)
           eq_refl).
Defined.

Lemma defaults_ignore_case_witness :
  _defaults_for no_env "HUMAN" "both" = inr ("", "")
  /\ _defaults_for no_env "Copilot" "model" = inl "".
Proof.
  split.
  - exact (proj2 (defaults_ignore_case no_env "HUMAN" "both") (or_introl eq_refl)).
  - exact (proj2 (defaults_ignore_case no_env "Copilot" "model") (or_intror eq_refl)).
Defined.

Lemma line_run_never_sets_fen (given : list BaseMessage) :
  never_sets_fen (line_run given).
Proof.
  unfold line_run.
  apply nsf_tool; [intros s H; discriminate H|]. intros _.
  apply nsf_tool; [intros s H; discriminate H|]. intros r.
  apply nsf_chunk, nsf_chunk, nsf_end.
Qed.

Lemma pos_push_passes_the_turn (p : Pos) (mv : string) :
  In mv (legal_moves p) -> turn (push mv p) = opposite (turn p).
Proof.
  destruct p; simpl; intros H;
    try (destruct H as [<-|[]]; reflexivity); destruct H.
Qed.

Lemma restricted_turn_moves_at_most_once_witness :
  w_board (snd (fst (call_agent line_agent (HumanMessage (PStr "Your move."))
                       (mkWorld P0 [go])))) = P0
  \/ exists mv,
       In mv (legal_moves P0) /\ side_name (turn P0) = "white"
       /\ w_board (snd (fst (call_agent line_agent
                               (HumanMessage (PStr "Your move."))
                               (mkWorld P0 [go])))) = push mv P0.
Proof.
  exact (restricted_turn_moves_at_most_once (E := engine) "white" line_agent
           (HumanMessage (PStr "Your move.")) (mkWorld P0 [go])
           eq_refl line_run_never_sets_fen pos_push_passes_the_turn).
Defined.

Lemma chat_turn_runs_the_agent_witness :
  chat_agent line_model no_mcp ollama human P0
  = Some (inr (mkAgent (with_mcp no_mcp base_tools) line_run))
  /\ w_board (snd (fst (chat_entrypoint line_model no_mcp (fen P0) "Play." []
                          ollama human P3))) = P1.
Proof.
  split; [reflexivity|].
  exact (f_equal (fun run => w_board (snd (fst run)))
           (chat_turn_runs_the_agent (E := engine) line_model no_mcp ollama human
              (fen P0) "Play." [] P3 P0
              (mkAgent (with_mcp no_mcp base_tools) line_run) eq_refl eq_refl)).
Defined.

Lemma rejected_fen_raises_at_once_witness :
  board_set_fen "not a fen" P0 = inl (mkExc ValueError "invalid fen: 'not a fen'")
  /\ chat_entrypoint line_model no_mcp "not a fen" "Play." [go] ollama human P0
     = ([], mkWorld P0 [go], inl (mkExc ValueError "invalid fen: 'not a fen'")).
Proof.
  split; [reflexivity|].
  exact (proj1 (rejected_fen_raises_at_once (E := engine) line_model no_mcp
                  ollama human 1 "not a fen" "Play." [go] P0
                  (mkExc ValueError "invalid fen: 'not a fen'") eq_refl)).
Defined.

(** ** The engine that keeps its move stack *)

Lemma strip_prefix_app (p r : string) : Shuffle.strip_prefix p (p ++ r) = Some r.
Proof.
  induction p as [|a p IH]; simpl; [reflexivity|].
  now rewrite Ascii.eqb_refl.
Qed.

Lemma take_digits_uint (d : Decimal.uint) (r : string) :
  Shuffle.take_digits (NilEmpty.string_of_uint d ++ String " " r)
  = NilEmpty.string_of_uint d.
Proof.
  induction d; simpl; rewrite ?IHd; reflexivity.
Qed.

Lemma take_digits_str_of_nat (n : nat) (r : string) :
  Shuffle.take_digits (str_of_nat n ++ String " " r) = str_of_nat n.
Proof.
  unfold str_of_nat, NilZero.string_of_uint.
  destruct (Nat.to_uint n) eqn:Hd; try (rewrite <- Hd at 1 2; rewrite Hd;
    match goal with |- context [NilEmpty.string_of_uint ?d] =>
      apply (take_digits_uint d) end).
  reflexivity.
Qed.

Lemma read_str_of_nat (n : nat) :
  option_map Nat.of_uint (NilEmpty.uint_of_string (str_of_nat n)) = Some n.
Proof.
  pose proof (DecimalNat.Unsigned.of_to n) as Hn.
  unfold str_of_nat, NilZero.string_of_uint.
  destruct (Nat.to_uint n) eqn:Hd;
    try (rewrite NilEmpty.usu; simpl option_map; now rewrite Hn).
  simpl in *. now rewrite <- Hn.
Qed.

(** Reading with the right first fields gives back the plies. *)
Lemma read_at_own (n : nat) :
  Shuffle.read_at (n mod 4) (Shuffle.shuffle_fen n) = Some n.
Proof.
  unfold Shuffle.read_at. unfold Shuffle.shuffle_fen at 1.
  rewrite strip_prefix_app.
  change (str_of_nat n ++ " " ++ str_of_nat (1 + n / 2))
    with (str_of_nat n ++ String " " (str_of_nat (1 + n / 2))).
  rewrite take_digits_str_of_nat.
  pose proof (read_str_of_nat n) as Hread.
  destruct (NilEmpty.uint_of_string (str_of_nat n)) as [d|]; [|discriminate].
  simpl in Hread. inversion Hread as [Hd]. rewrite Hd.
  now rewrite String.eqb_refl.
Qed.

(** The first fields of one position do not start the FEN of another. *)
Lemma read_at_other (j k : nat) (rest : string) :
  j < 4 -> k < 4 -> j <> k ->
  Shuffle.read_at j (Shuffle.placement k ++ rest) = None.
Proof.
  intros Hj Hk Hjk. unfold Shuffle.read_at.
  destruct j as [|[|[|[|j]]]]; try lia;
    destruct k as [|[|[|[|k]]]]; try lia; reflexivity.
Qed.

(** The engine reads back every FEN it prints: the position is the same
    and the move stack is empty. *)
Lemma shuffle_reads_back_its_fen (b b0 : Shuffle.ShuffleBoard) :
  Shuffle.shuffle_set_fen (Shuffle.shuffle_fen (Shuffle.plies b)) b0
  = inr (Shuffle.mkShuffle (Shuffle.plies b) []).
Proof.
  unfold Shuffle.shuffle_set_fen.
  assert (Hread : Shuffle.read_fen (Shuffle.shuffle_fen (Shuffle.plies b))
                  = Some (Shuffle.plies b)).
  { set (n := Shuffle.plies b).
    pose proof (read_at_own n) as Hown.
    pose proof (Nat.mod_upper_bound n 4 ltac:(lia)) as Hk.
    assert (Hother : forall j, j < 4 -> j <> n mod 4 ->
                       Shuffle.read_at j (Shuffle.shuffle_fen n) = None).
    { intros j Hj Hne. unfold Shuffle.shuffle_fen. now apply read_at_other. }
    unfold Shuffle.read_fen.
    destruct (n mod 4) as [|[|[|[|k]]]] eqn:Hmod; try lia.
    - now rewrite Hown.
    - rewrite (Hother 0) by lia. now rewrite Hown.
    - rewrite (Hother 0), (Hother 1) by lia. now rewrite Hown.
    - rewrite (Hother 0), (Hother 1), (Hother 2) by lia. exact Hown. }
  now rewrite Hread.
Qed.

(** On the engine that keeps its move stack, [set_fen] with what
    [get_fen] returns always returns that FEN and keeps the position, and
    always empties the move stack. *)
Lemma shuffle_set_fen_of_get_fen (b : Shuffle.ShuffleBoard) :
  bind (E := Shuffle.engine) get_fen set_fen b
  = (inr (Shuffle.shuffle_fen (Shuffle.plies b)),
     Shuffle.mkShuffle (Shuffle.plies b) []).
Proof.
  rewrite (set_fen_of_get_fen_unfolded (E := Shuffle.engine)).
  cbn [board_set_fen fen Shuffle.engine].
  now rewrite shuffle_reads_back_its_fen.
Qed.


